(** * uberbot v2/core: command registry, schema synthesis, dispatch, recovery

    A shallow embedding of the command-routing core of the bot
    (commands.go and interaction.go of package core) and the
    properties of it that the specification states.

    Go maps are stdpp [gmap]s; a Go slice of pointers is a list of
    [option]s ([None] is the nil pointer); a panic is the [Panic]
    constructor of [Result]; the process-wide tables are the fields of
    [Registry], threaded through every operation that writes them. *)

From Stdlib Require Import ZArith Ascii String.
From stdpp Require Import base option list strings gmap fin_maps.

Set Warnings "-register-all".
Local Open Scope string_scope.
Local Open Scope list_scope.
Local Open Scope stdpp_scope.

(** ** The Go runtime: strings, panics *)

Module gostrings.

(** One byte of [strings.ToLower]: 'A'..'Z' are moved to 'a'..'z'. On
    strings of ASCII letters this is Go's function; bytes above 127 are
    left as they are. *)
Definition lower_ascii (c : ascii) : ascii :=
  let n := nat_of_ascii c in
  if (65 <=? n)%nat && (n <=? 90)%nat then ascii_of_nat (n + 32) else c.

Fixpoint ToLower (s : string) : string :=
  match s with
  | EmptyString => EmptyString
  | String c r => String (lower_ascii c) (ToLower r)
  end.

(** The position-free core of [strings.SplitN(s, " ", 2)]: the text
    before the first space and the text after it, or nothing when [s]
    holds no space. *)
Fixpoint cut_space (s : string) : option (string * string) :=
  match s with
  | EmptyString => None
  | String c r =>
      if Ascii.eqb c " " then Some (EmptyString, r)
      else match cut_space r with
           | Some (a, b) => Some (String c a, b)
           | None => None
           end
  end.

(** [strings.SplitN(s, " ", 2)]: at most two substrings; a string without
    a space (the empty string too) comes back as the only element. *)
Definition SplitN_space_2 (s : string) : list string :=
  match cut_space s with
  | Some (a, b) => [a; b]
  | None => [s]
  end.

(** The string holds no space character. *)
Fixpoint no_space (s : string) : bool :=
  match s with
  | EmptyString => true
  | String c r => negb (Ascii.eqb c " ") && no_space r
  end.

End gostrings.

(** A value handed to [panic]. [recover()] yields it as an [interface{}];
    the assertion [r.(runtime.Error)] succeeds on the first constructor
    only. *)
Inductive PanicValue :=
  | RuntimeError (msg : string)   (* a value implementing runtime.Error *)
  | ErrorValue (msg : string)     (* an error that is no runtime.Error *)
  | StringValue (s : string).     (* panic("...") *)

Definition nil_dereference : PanicValue :=
  RuntimeError "invalid memory address or nil pointer dereference".
Definition index_out_of_range : PanicValue :=
  RuntimeError "index out of range [0] with length 0".
Definition interface_conversion : PanicValue :=
  RuntimeError "interface conversion".

(** [r.(runtime.Error)] without the comma-ok form. *)
Definition assert_runtime_Error (r : PanicValue) : option string :=
  match r with
  | RuntimeError msg => Some msg
  | _ => None
  end.

(** The outcome of running Go code that may panic. *)
Inductive Result (A : Type) :=
  | Ok (a : A)
  | Panic (v : PanicValue).
Arguments Ok {A} a.
Arguments Panic {A} v.

#[global] Instance Result_ret : MRet Result := fun A a => Ok a.
#[global] Instance Result_bind : MBind Result := fun A B k r =>
  match r with
  | Ok a => k a
  | Panic v => Panic v
  end.

Definition is_panic {A} (r : Result A) : bool :=
  match r with Panic _ => true | Ok _ => false end.

(** ** discordgo: the external schema types *)

Module discordgo.

(** [ApplicationCommandOptionType] is a uint8; 0 is its zero value and
    names no option type. *)
Definition ApplicationCommandOptionType := Z.
Definition ApplicationCommandOptionSubCommand : Z := 1.
Definition ApplicationCommandOptionSubCommandGroup : Z := 2.
Definition ApplicationCommandOptionString : Z := 3.
Definition ApplicationCommandOptionInteger : Z := 4.
Definition ApplicationCommandOptionBoolean : Z := 5.
Definition ApplicationCommandOptionUser : Z := 6.
Definition ApplicationCommandOptionChannel : Z := 7.
Definition ApplicationCommandOptionRole : Z := 8.

Record ApplicationCommandOptionChoice := {
  ChoiceName : string;
  ChoiceValue : string
}.

Record ApplicationCommandOption := {
  Type_ : ApplicationCommandOptionType;
  OptName : string;
  OptDescription : string;
  Required : bool;
  Choices : option (list (option ApplicationCommandOptionChoice))
}.

Record ApplicationCommand := {
  Name : string;
  Description : string;
  Options : option (list (option ApplicationCommandOption))
}.

End discordgo.

(** ** The argument model (its declarations live outside this package's
    two files; only the fields the core reads are kept) *)

Abbreviation ArgTypeGuards := string (only parsing).

Record ArgInfo := {
  TypeGuard : ArgTypeGuards;
  ArgDescription : string;
  ArgRequired : bool;
  ArgChoices : option (list string)
}.

(** The values of the [ArgTypeGuards] constants that key
    [applicationCommandTypes]. They are declared next to [ArgInfo], so
    they are taken as parameters. *)
Module TG.
Record Names := {
  Int : ArgTypeGuards;
  String : ArgTypeGuards;
  Channel : ArgTypeGuards;
  User : ArgTypeGuards;
  Role : ArgTypeGuards;
  Boolean : ArgTypeGuards;
  SubCmd : ArgTypeGuards;
  SubCmdGrp : ArgTypeGuards
}.

Definition all (G : Names) : list ArgTypeGuards :=
  [Int G; String G; Channel G; User G; Role G; Boolean G; SubCmd G;
   SubCmdGrp G].
End TG.

(** [*orderedmap.OrderedMap] holding [*ArgInfo] values: the keys in
    insertion order, each with its value. *)
Module orderedmap.
Definition OrderedMap := list (string * ArgInfo).

Definition Keys (o : OrderedMap) : list string := o.*1.

Fixpoint Get (o : OrderedMap) (k : string) : option ArgInfo :=
  match o with
  | [] => None
  | (k', v) :: r => if decide (k' = k) then Some v else Get r k
  end.
End orderedmap.

(** [map[string]CommandArg], the parsed arguments; [None] is the nil map. *)
Inductive GoValue :=
  | VNil
  | VString (s : string)
  | VInt (z : Z)
  | VBool (b : bool).

Record CommandArg := {
  info : ArgInfo;
  Value : GoValue
}.

Abbreviation Arguments := (option (gmap string CommandArg)) (only parsing).

(** ** commands.go: the data model *)

Record CommandInfo := {
  Aliases : list string;
  Arguments_ : option orderedmap.OrderedMap;   (* nil or an ordered map *)
  Description : string;
  Group : string;
  ParentID : string;
  Public : bool;
  IsTyping : bool;
  IsParent : bool;
  IsChild : bool;
  Trigger : string
}.

Record Guild := {
  ID : string;
  ResponseChannelID : string     (* g.Info.ResponseChannelID *)
}.

Record Message := {
  MessageID : string;
  ChannelID : string;
  GuildID : string;
  AuthorID : string;             (* message.Author.ID *)
  Content : string
}.

(** [discordgo.ApplicationCommandInteractionDataOption]: a name, a value
    and, for a subcommand, the options nested in it ([None] is the nil
    slice). *)
Inductive InteractionDataOption :=
  | DataOption (name : string) (value : GoValue)
      (options : option (list InteractionDataOption)).

Inductive InteractionType :=
  | InteractionApplicationCommand
  | InteractionMessageComponent
  | InteractionOther.

(** [discordgo.User] and [discordgo.Member], as far as the core reads
    them. *)
Record User := { UserID : string }.
Record Member := {
  MemberUser : option User       (* Member.User, a pointer *)
}.

(** [Member] is a pointer: the gateway fills it for an interaction sent
    in a guild and leaves it nil for one sent in a direct message. *)
Record Interaction := {
  IType : InteractionType;
  IGuildID : string;
  IChannelID : string;
  IMember : option Member;       (* i.Member *)
  IName : string;                (* ApplicationCommandData().Name *)
  IOptions : list InteractionDataOption;
  ICustomID : string             (* MessageComponentData().CustomID *)
}.

Record CmdContext := {
  CtxGuild : Guild;
  Cmd : CommandInfo;
  Args : Arguments;
  CtxMessage : option Message;
  CtxInteraction : option Interaction
}.

(** A handler returns or panics; what else it does is its own business. *)
Definition BotFunction := CmdContext -> Result unit.

Record Command := {
  Info : CommandInfo;
  Function : option BotFunction    (* a func value may be nil *)
}.

(** The zero value [Command{}] that a lookup of a missing key yields. *)
Definition zero_CommandInfo : CommandInfo :=
  {| Aliases := []; Arguments_ := None; Description := ""; Group := "";
     ParentID := ""; Public := false; IsTyping := false; IsParent := false;
     IsChild := false; Trigger := "" |}.
Definition zero_Command : Command :=
  {| Info := zero_CommandInfo; Function := None |}.

(** [i.Member.User.ID]: either pointer may be nil. *)
Definition Member_User_ID (i : Interaction) : Result string :=
  match IMember i with
  | Some member =>
      match MemberUser member with
      | Some user => Ok (UserID user)
      | None => Panic nil_dereference
      end
  | None => Panic nil_dereference
  end.

(** Calling a func value. *)
Definition call {A} (f : option (A -> Result unit)) (a : A) : Result unit :=
  match f with
  | Some g => g a
  | None => Panic nil_dereference
  end.

(** interaction.go *)
Record InteractionInfo := { Id : string }.

Record InteractionCtx := {
  InteractionCreate : Interaction;
  CtxInfo : InteractionInfo
}.

Definition InteractionFunc := InteractionCtx -> Result unit.

Record InteractionHandler := {
  HInfo : InteractionInfo;
  HFunction : option InteractionFunc
}.

Definition zero_InteractionHandler : InteractionHandler :=
  {| HInfo := {| Id := "" |}; HFunction := None |}.

(** The package-level variables. *)
Record Registry := {
  commands : gmap string Command;
  childCommands : gmap string (gmap string Command);
  commandAliases : gmap string string;
  slashCommands : gmap string discordgo.ApplicationCommand;
  interactionHandlers : gmap string InteractionHandler;
  commandsGC : Z                  (* a Go int, 64 bits *)
}.

Definition empty_Registry : Registry :=
  {| commands := ∅; childCommands := ∅; commandAliases := ∅;
     slashCommands := ∅; interactionHandlers := ∅; commandsGC := 0 |}.

(** What the package does to the outside world, in program order. *)
Inductive Event :=
  | EvLog (level format : string) (args : list string)
  | EvSendErrorReport (gID cID uID title err : string)
  | EvMessageReactionAdd (cID mID emoji : string)
  | EvChannelMessageSendReply (cID content : string)
  | EvChannelTyping (cID : string)
  | EvChannelMessageSend (cID content : string)
  | EvChannelMessageDelete (cID mID : string)
  | EvInteractionResponseEdit (content : string)
  | EvInteractionRespond (flags : Z) (content : string)
  | EvSleep (seconds : Z)
  | EvFreeOSMemory.

(** The collaborators of the core whose code is elsewhere. *)
Record Collaborators := {
  ExtractCommand : Guild -> string -> option (string * string);
  GetGuild : string -> Guild;
  IsAdmin : string -> bool;
  IsMod : Guild -> string -> bool;
  ParseArguments : string -> option orderedmap.OrderedMap -> Arguments;
  CreateAppOptSt : CommandInfo -> discordgo.ApplicationCommandOption
}.

(** ** commands.go: registration *)

(** One turn of the alias loop of [AddCommand]: the table is asked for the
    alias as it was given; only then is the alias lower-cased and
    entered. *)
Definition add_alias (trigger : string)
    (acc : gmap string string * list Event) (alias : string)
    : gmap string string * list Event :=
  match acc.1 !! alias with
  | Some _ =>
      (acc.1, acc.2 ++ [EvLog "error"
                          "Alias was already registered %s for command %s"
                          [alias; trigger]])
  | None => (<[gostrings.ToLower alias := trigger]> acc.1, acc.2)
  end.

(** What a call of [AddCommand] leaves behind: the package-level
    variables with the lines it logged, and the struct its pointer
    argument designates. Where the package-level variables and the log are
    asked for, a [Registered] is read as that pair. *)
Record Registered := {
  registered :> Registry * list Event;
  pointee : CommandInfo
}.

(** [info] is a pointer: the alias list with the trigger appended is
    assigned to the caller's struct, and the stored command is a copy of
    the struct after that assignment. The argument is the struct as the
    call finds it; [pointee] is the struct as the call leaves it. *)
Definition AddCommand (info : CommandInfo) (function : option BotFunction)
    (st : Registry) : Registered :=
  let info :=
    {| Aliases := Aliases info ++ [Trigger info];
       Arguments_ := Arguments_ info; Description := Description info;
       Group := Group info; ParentID := ParentID info;
       Public := Public info; IsTyping := IsTyping info;
       IsParent := IsParent info; IsChild := IsChild info;
       Trigger := Trigger info |} in
  let command := {| Info := info; Function := function |} in
  let r := foldl (add_alias (Trigger info)) (commandAliases st, [])
             (Aliases info) in
  {| registered :=
       ({| commands :=
             <[gostrings.ToLower (Trigger info) := command]> (commands st);
           childCommands := childCommands st;
           commandAliases := r.1;
           slashCommands := slashCommands st;
           interactionHandlers := interactionHandlers st;
           commandsGC := commandsGC st |}, r.2);
     pointee := info |}.

Definition AddChildCommand (info : CommandInfo)
    (function : option BotFunction) (st : Registry) : Registry :=
  let command := {| Info := info; Function := function |} in
  let parentID := gostrings.ToLower (ParentID info) in
  let children := default ∅ (childCommands st !! parentID) in
  {| commands := commands st;
     childCommands :=
       <[parentID := <[Trigger (Info command) := command]> children]>
         (childCommands st);
     commandAliases := commandAliases st;
     slashCommands := slashCommands st;
     interactionHandlers := interactionHandlers st;
     commandsGC := commandsGC st |}.

Definition AddInteractHandler (info : InteractionInfo)
    (function : option InteractionFunc) (st : Registry) : Registry :=
  let interact := {| HInfo := info; HFunction := function |} in
  {| commands := commands st;
     childCommands := childCommands st;
     commandAliases := commandAliases st;
     slashCommands := slashCommands st;
     interactionHandlers :=
       <[gostrings.ToLower (Id info) := interact]> (interactionHandlers st);
     commandsGC := commandsGC st |}.

Definition GetCommands (st : Registry) : gmap string CommandInfo :=
  Info <$> commands st.

(** ** interaction.go: schema synthesis *)

Section Schema.
Variable G : TG.Names.
Variable E : Collaborators.
(** The order in which a [range] over a map of commands visits it. *)
Variable range_order : gmap string Command -> list (string * Command).

Definition applicationCommandTypes
    : gmap string discordgo.ApplicationCommandOptionType :=
  list_to_map
    [ (TG.Int G, discordgo.ApplicationCommandOptionInteger);
      (TG.String G, discordgo.ApplicationCommandOptionString);
      (TG.Channel G, discordgo.ApplicationCommandOptionChannel);
      (TG.User G, discordgo.ApplicationCommandOptionUser);
      (TG.Role G, discordgo.ApplicationCommandOptionRole);
      (TG.Boolean G, discordgo.ApplicationCommandOptionBoolean);
      (TG.SubCmd G, discordgo.ApplicationCommandOptionSubCommand);
      (TG.SubCmdGrp G, discordgo.ApplicationCommandOptionSubCommandGroup) ].

(** The option type chosen for a type guard: the table's entry, else
    the entry of the literal key ["String"] (0 when the table has none,
    as an index expression on a Go map gives). *)
Definition option_type (tg : ArgTypeGuards)
    : discordgo.ApplicationCommandOptionType :=
  match applicationCommandTypes !! tg with
  | Some val => val
  | None => default 0%Z (applicationCommandTypes !! "String")
  end.

Definition make_choice (k : string)
    : option discordgo.ApplicationCommandOptionChoice :=
  Some {| discordgo.ChoiceName := k; discordgo.ChoiceValue := k |}.

(** The body of the loop over the keys: the option built for key [k]. *)
Definition make_option (k : string) (vv : ArgInfo)
    : discordgo.ApplicationCommandOption :=
  {| discordgo.Type_ := option_type (TypeGuard vv);
     discordgo.OptName := k;
     discordgo.OptDescription := ArgDescription vv;
     discordgo.Required := ArgRequired vv;
     discordgo.Choices :=
       match ArgChoices vv with
       | Some choices => Some (make_choice <$> choices)
       | None => None
       end |}.

(** [for i, k := range info.Arguments.Keys()], from index [i] on;
    [st.Options[i] = &optionStruct] is the indexed write. *)
Fixpoint fill_options (o : orderedmap.OrderedMap) (i : nat)
    (keys : list string)
    (opts : list (option discordgo.ApplicationCommandOption))
    : Result (list (option discordgo.ApplicationCommandOption)) :=
  match keys with
  | [] => Ok opts
  | k :: keys =>
      match orderedmap.Get o k with
      | None => Panic interface_conversion
      | Some vv =>
          fill_options o (S i) keys (<[i := Some (make_option k vv)]> opts)
      end
  end.

Definition createApplicationCommandStruct (info : CommandInfo)
    : Result discordgo.ApplicationCommand :=
  match Arguments_ info with
  | None =>
      Ok {| discordgo.Name := Trigger info;
            discordgo.Description := Description info;
            discordgo.Options := None |}
  | Some o =>
      if bool_decide (length (orderedmap.Keys o) < 1) then
        Ok {| discordgo.Name := Trigger info;
              discordgo.Description := Description info;
              discordgo.Options := None |}
      else
        opts ← fill_options o 0 (orderedmap.Keys o)
                  (replicate (length (orderedmap.Keys o)) None);
        Ok {| discordgo.Name := Trigger info;
              discordgo.Description := Description info;
              discordgo.Options := Some opts |}
  end.

(** [v.Info.Arguments.Get(v.Info.Arguments.Keys()[0])] followed by
    the assertion of [ar] to an [ArgInfo] pointer: the first argument
    descriptor of a child. *)
Definition first_argument (info : CommandInfo) : Result ArgInfo :=
  match Arguments_ info with
  | None => Panic nil_dereference
  | Some o =>
      match orderedmap.Keys o with
      | [] => Panic index_out_of_range
      | k :: _ =>
          match orderedmap.Get o k with
          | Some ar => Ok ar
          | None => Panic interface_conversion
          end
      end
  end.

(** [for _, v := range childCmds] with its cursor [currentPos]. *)
Fixpoint fill_children (children : list (string * Command))
    (currentPos : nat)
    (opts : list (option discordgo.ApplicationCommandOption))
    : Result (list (option discordgo.ApplicationCommandOption)) :=
  match children with
  | [] => Ok opts
  | (_, v) :: children =>
      ar ← first_argument (Info v);
      if decide (TypeGuard ar = TG.SubCmdGrp G) then
        fill_children children currentPos opts
      else
        fill_children children (S currentPos)
          (<[currentPos := Some (CreateAppOptSt E (Info v))]> opts)
  end.

Definition createChatInputSubCmdStruct (info : CommandInfo)
    (childCmds : gmap string Command)
    : Result discordgo.ApplicationCommand :=
  opts ← fill_children (range_order childCmds) 0
            (replicate (size childCmds) None);
  Ok {| discordgo.Name := Trigger info;
        discordgo.Description := Description info;
        discordgo.Options := Some opts |}.

Definition set_slashCommand (st : Registry) (k : string)
    (s : discordgo.ApplicationCommand) : Registry :=
  {| commands := commands st;
     childCommands := childCommands st;
     commandAliases := commandAliases st;
     slashCommands := <[k := s]> (slashCommands st);
     interactionHandlers := interactionHandlers st;
     commandsGC := commandsGC st |}.

Definition AddSlashCommand (info : CommandInfo) (st : Registry)
    : Result Registry :=
  if negb (IsParent info) || negb (IsChild info) then
    s ← createApplicationCommandStruct info;
    Ok (set_slashCommand st (gostrings.ToLower (Trigger info)) s)
  else if IsParent info then
    s ← createChatInputSubCmdStruct info
           (default ∅ (childCommands st !! Trigger info));
    Ok (set_slashCommand st (gostrings.ToLower (Trigger info)) s)
  else Ok st.

End Schema.

(** ** Effects: what a piece of the core emits, and how it ends *)

Record Eff (A : Type) := MkEff {
  trace : list Event;
  outcome : Result A
}.
Arguments MkEff {A} trace outcome.
Arguments trace {A} e.
Arguments outcome {A} e.

#[global] Instance Eff_ret : MRet Eff := fun A a => MkEff [] (Ok a).
#[global] Instance Eff_bind : MBind Eff := fun A B k m =>
  match outcome m with
  | Ok a => MkEff (trace m ++ trace (k a)) (outcome (k a))
  | Panic v => MkEff (trace m) (Panic v)
  end.

Definition emit (e : Event) : Eff unit := MkEff [e] (Ok ()).
Definition throw {A} (v : PanicValue) : Eff A := MkEff [] (Panic v).
Definition lift {A} (r : Result A) : Eff A := MkEff [] r.

(** [defer d(...)] around [body], where [d] opens with [recover()]: [d]
    runs when [body] is left, and is handed the value [body] panicked
    with, or nothing. A panic that [d] took and survived ends there and
    the function returns ([a0] stands for the state it leaves behind); a
    panic of [d] itself leaves the function. *)
Definition with_deferred {A} (a0 : A) (body : Eff A)
    (d : option PanicValue -> Eff unit) : Eff A :=
  match outcome body with
  | Ok a =>
      MkEff (trace body ++ trace (d None))
        (match outcome (d None) with Ok _ => Ok a | Panic w => Panic w end)
  | Panic v =>
      MkEff (trace body ++ trace (d (Some v)))
        (match outcome (d (Some v)) with Ok _ => Ok a0 | Panic w => Panic w end)
  end.

Definition show_panic (r : PanicValue) : string :=
  match r with
  | RuntimeError msg => msg
  | ErrorValue msg => msg
  | StringValue s => s
  end.

(** The gateway session: who the bot is, and what each outbound call
    answers. A call returning a pointer and an error may return a nil
    pointer. *)
Record Session := {
  State_User_ID : string;
  State_Channel : string -> option string;
  Channel : string -> option string;
  ChannelMessageSend : string -> string -> option Message * option string;
  ChannelMessageDelete : string -> string -> option string;
  InteractionResponseEdit : Interaction -> string
                            -> option Message * option string;
  InteractionRespond : Interaction -> string -> option string
}.

(** ** The failure-recovery middleware *)

Section Recovery.
Variable S : Session.

(** commands.go, [handleCommandError]; [r] is what [recover()] gives. *)
Definition handleCommandError (gID cId uId : string)
    (r : option PanicValue) : Eff unit :=
  match r with
  | None => mret ()
  | Some r =>
      emit (EvLog "warning" "Recovering from panic: %s" [show_panic r]);;
      emit (EvLog "warning" "Sending Error report to admins" []);;
      e ← match assert_runtime_Error r with
          | Some e => mret e
          | None => throw interface_conversion
          end;
      emit (EvSendErrorReport gID cId uId "Error!" e);;
      emit (EvChannelMessageSend cId "Error!");;
      let '(message, err) := ChannelMessageSend S cId "Error!" in
      match err with
      | Some err => emit (EvLog "error" "err sending message %s" [err])
      | None => mret ()
      end;;
      emit (EvSleep 5);;
      m ← match message with
          | Some m => mret m
          | None => throw nil_dereference
          end;
      emit (EvChannelMessageDelete cId (MessageID m))
  end.

(** interaction.go, [handleInteractionError]. The arguments of
    [SendErrorReport] are evaluated from left to right: [i.Member.User.ID]
    is read before [r] is asserted to be a [runtime.Error]. *)
Definition handleInteractionError (i : Interaction)
    (r : option PanicValue) : Eff unit :=
  match r with
  | None => mret ()
  | Some r =>
      emit (EvLog "warning" "Recovering from panic: %s" [show_panic r]);;
      emit (EvLog "warning" "Sending Error report to admins" []);;
      uid ← lift (Member_User_ID i);
      e ← match assert_runtime_Error r with
          | Some e => mret e
          | None => throw interface_conversion
          end;
      emit (EvSendErrorReport (IGuildID i) (IChannelID i) uid "Error!" e);;
      emit (EvInteractionResponseEdit "error executing command");;
      let '(message, err) :=
        InteractionResponseEdit S i "error executing command" in
      match err with
      | Some err =>
          emit (EvLog "error" "err sending message %s" [err]);;
          emit (EvInteractionRespond (Z.shiftl 1 6)
                  "error executing command");;
          (* err.Error() on the answer of InteractionRespond *)
          match InteractionRespond S i "error executing command" with
          | Some err =>
              emit (EvLog "error" "err responding to interaction %s" [err])
          | None => throw nil_dereference
          end
      | None => mret ()
      end;;
      m ← match message with
          | Some m => mret m
          | None => throw nil_dereference
          end;
      emit (EvChannelMessageDelete (IChannelID i) (MessageID m));;
      match ChannelMessageDelete S (IChannelID i) (MessageID m) with
      | Some err => emit (EvLog "error" "unable to delete message %s" [err])
      | None => mret ()
      end
  end.

End Recovery.

(** ** The dispatch engine *)

Definition set_commandsGC (st : Registry) (n : Z) : Registry :=
  {| commands := commands st;
     childCommands := childCommands st;
     commandAliases := commandAliases st;
     slashCommands := slashCommands st;
     interactionHandlers := interactionHandlers st;
     commandsGC := n |}.

(** A Go [int] on a 64-bit platform: [n] brought back into
    [-2^63, 2^63). *)
Definition int_wrap (n : Z) : Z :=
  ((n + 2 ^ 63) mod 2 ^ 64 - 2 ^ 63)%Z.

(** [commandsGC == 25 && commandsGC > 25]. *)
Definition gc_guard (commandsGC : Z) : bool :=
  (commandsGC =? 25)%Z && (commandsGC >? 25)%Z.

(** [commands[commandAliases[trigger]]] with its comma-ok result: a
    trigger the alias table does not know indexes [commands] with the
    empty string. *)
Definition lookup_command (st : Registry) (trigger : string)
    : option Command :=
  commands st !! default "" (commandAliases st !! trigger).

(** interaction.go, [ParseInteractionArgsR]: one option, then the options
    nested in it. *)
Fixpoint parse_option (v : InteractionDataOption)
    (args : gmap string CommandArg) : gmap string CommandArg :=
  match v with
  | DataOption name value options =>
      let args :=
        <[name := {| info := {| TypeGuard := ""; ArgDescription := "";
                                ArgRequired := false; ArgChoices := None |};
                     Value := value |}]> args in
      match options with
      | None => args
      | Some options =>
          (fix each (l : list InteractionDataOption)
               (args : gmap string CommandArg) :=
             match l with
             | [] => args
             | v :: l => each l (parse_option v args)
             end) options args
      end
  end.

Definition ParseInteractionArgsR (options : list InteractionDataOption)
    (args : gmap string CommandArg) : gmap string CommandArg :=
  foldl (fun args v => parse_option v args) args options.

Definition ParseInteractionArgs (options : list InteractionDataOption)
    : gmap string CommandArg :=
  ParseInteractionArgsR options ∅.

Section Dispatch.
Variable E : Collaborators.
Variable S : Session.

(** The call [handleChildCommand] ends in: the function and the context
    it is given. *)
Definition child_invocation (st : Registry) (argString : string)
    (command : Command) (message : Message) (guild : Guild)
    : option BotFunction * CmdContext :=
  let split := gostrings.SplitN_space_2 argString in
  match default ∅ (childCommands st !! Trigger (Info command))
          !! default "" (split !! 0%nat) with
  | None =>
      (Function command,
       {| CtxGuild := guild; Cmd := Info command; Args := None;
          CtxMessage := Some message; CtxInteraction := None |})
  | Some childCmd =>
      if bool_decide (length split < 2) then
        (Function childCmd,
         {| CtxGuild := guild; Cmd := Info childCmd;
            Args := ParseArguments E "" (Arguments_ (Info childCmd));
            CtxMessage := Some message; CtxInteraction := None |})
      else
        (Function childCmd,
         {| CtxGuild := guild; Cmd := Info childCmd;
            Args := ParseArguments E (default "" (split !! 1%nat))
                      (Arguments_ (Info childCmd));
            CtxMessage := Some message; CtxInteraction := None |})
  end.

Definition handleChildCommand (st : Registry) (argString : string)
    (command : Command) (message : Message) (guild : Guild)
    : Result unit :=
  let inv := child_invocation st argString command message guild in
  call inv.1 inv.2.

(** The call a command that is no parent is run with. *)
Definition leaf_invocation (argString : string) (command : Command)
    (message : Message) (g : Guild) : option BotFunction * CmdContext :=
  (Function command,
   {| CtxGuild := g; Cmd := Info command;
      Args := ParseArguments E argString (Arguments_ (Info command));
      CtxMessage := Some message; CtxInteraction := None |}).

(** [commandHandler] from the deferred call on: a parent goes to its
    children and returns; any other command is run and, once it has
    returned, the counter is looked at. *)
Definition run_command (st : Registry) (argString : string)
    (command : Command) (message : Message) (g : Guild) : Eff Registry :=
  if IsParent (Info command) then
    lift (handleChildCommand st argString command message g);;
    mret st
  else
    let inv := leaf_invocation argString command message g in
    lift (call inv.1 inv.2);;
    if gc_guard (commandsGC st) then
      emit EvFreeOSMemory;;
      mret (set_commandsGC st 0)
    else
      mret (set_commandsGC st (int_wrap (commandsGC st + 1))).

(** commands.go, [commandHandler]. The result is the registry the
    handler leaves behind, unless it panics. *)
Definition commandHandler (st : Registry) (message : Message)
    : Eff Registry :=
  let channel :=
    match State_Channel S (ChannelID message) with
    | Some c => Some c
    | None => Channel S (ChannelID message)
    end in
  match channel with
  | None => mret st
  | Some channel_ID =>
      if decide (AuthorID message = State_User_ID S) then mret st
      else
        let g := GetGuild E (GuildID message) in
        match ExtractCommand E g (Content message) with
        | None => mret st
        | Some (trigger, argString) =>
            match lookup_command st trigger with
            | None =>
                emit (EvLog "error" "Command was not found" []);;
                (if IsAdmin E (AuthorID message) then
                   emit (EvMessageReactionAdd (ChannelID message)
                           (MessageID message)
                           "<:redtick:861413502991073281>");;
                   emit (EvChannelMessageSendReply (ChannelID message)
                           "<:redtick:861413502991073281> Error! Command not found!")
                 else mret ());;
                mret st
            | Some command =>
                (if IsTyping (Info command)
                    && bool_decide (ResponseChannelID g = "")
                 then emit (EvChannelTyping (ChannelID message))
                 else mret ());;
                with_deferred st
                  (run_command st argString command message g)
                  (handleCommandError S (ID g) channel_ID
                     (AuthorID message))
            end
        end
  end.

(** interaction.go, [handleInteractionCommand]. The condition reads
    [i.Member.User.ID] in its first operand, before the recovery is
    deferred: a nil [Member] or [User] panics there, and the panic leaves
    the function. *)
Definition handleInteractionCommand (st : Registry) (i : Interaction)
    : Eff unit :=
  let g := GetGuild E (IGuildID i) in
  let trigger := IName i in
  let command := default zero_Command (commands st !! trigger) in
  match Member_User_ID i with
  | Panic v => throw v
  | Ok uid =>
      if IsAdmin E uid || Public (Info command) || IsMod E g uid
      then
        with_deferred ()
          (lift (call (Function command)
             {| CtxGuild := g; Cmd := Info command;
                Args := Some (ParseInteractionArgs (IOptions i));
                CtxMessage :=
                  Some {| MessageID := ""; ChannelID := IChannelID i;
                          GuildID := IGuildID i;
                          AuthorID := uid; Content := "" |};
                CtxInteraction := Some i |}))
          (handleInteractionError S i)
      else mret ()
  end.

(** interaction.go, [handleMessageComponents]. The first call of
    [handleInteractionError] is an ordinary call: its [recover()] finds
    no panic under way. *)
Definition handleMessageComponents (st : Registry) (i : Interaction)
    : Eff unit :=
  let handlerName := ICustomID i in
  let handler :=
    default zero_InteractionHandler
      (interactionHandlers st !! handlerName) in
  (if bool_decide (is_Some (interactionHandlers st !! handlerName))
   then mret ()
   else handleInteractionError S i None);;
  with_deferred ()
    (lift (call (HFunction handler)
       {| InteractionCreate := i; CtxInfo := HInfo handler |}))
    (handleInteractionError S i).

Definition handleInteraction (st : Registry) (i : Interaction)
    : Eff unit :=
  match IType i with
  | InteractionApplicationCommand => handleInteractionCommand st i
  | InteractionMessageComponent => handleMessageComponents st i
  | InteractionOther => mret ()
  end.

End Dispatch.

(** ** commands.go and interaction.go: publishing and removing schemas *)

(** An application command as the platform holds it: besides the schema,
    the ID it was given and its type. A schema synthesized here carries
    the zero value of both. *)
Record PlatformCommand := {
  CmdID : string;
  CmdType : Z;
  CmdSchema : discordgo.ApplicationCommand
}.

Definition ChatApplicationCommand : Z := 1.

(** [setCmd := cmd; &setCmd] for a stored schema. *)
Definition of_schema (s : discordgo.ApplicationCommand) : PlatformCommand :=
  {| CmdID := ""; CmdType := 0; CmdSchema := s |}.

(** The calls of the session that read and write application commands,
    the guilds in its state as (name, ID), the environment switch, and
    [internal.Filter], whose code is in another package. *)
Record CommandAPI := {
  ApplicationCommands : string -> string
                        -> list PlatformCommand * option string;
  ApplicationCommandBulkOverwrite :
    string -> string -> list PlatformCommand
    -> option (list PlatformCommand) * option string;
  ApplicationCommandDelete : string -> string -> string -> option string;
  State_Guilds : list (string * string);
  IsDevEnv : bool;
  Filter : (PlatformCommand -> bool) -> list PlatformCommand
           -> list PlatformCommand
}.

Inductive SyncEvent :=
  | SyLog (level format : string) (args : list string)
  | SyApplicationCommands (guildID : string)
  | SyBulkOverwrite (guildID : string) (cmds : list PlatformCommand)
  | SyDelete (guildID cmdID : string).

Section Sync.
Variable A : CommandAPI.
(** The bot's own user ID, [Session.State.User.ID]. *)
Variable appID : string.
(** The order in which a [range] over the schema table visits it. *)
Variable range_slash : gmap string discordgo.ApplicationCommand
                       -> list (string * discordgo.ApplicationCommand).

(** The loop over the guilds of [RegisterSlashCommands]: a failed
    overwrite is logged and ends the function. *)
Fixpoint overwrite_guilds (commands : list PlatformCommand)
    (guilds : list (string * string)) : list SyncEvent :=
  match guilds with
  | [] => []
  | guild :: guilds =>
      SyBulkOverwrite guild.2 commands ::
      match ApplicationCommandBulkOverwrite A appID guild.2 commands with
      | (_, Some err) =>
          [SyLog "error" "unable to bulk overwrite commands in guild %s (%s)"
             [guild.1; guild.2];
           SyLog "error" "%s" [err]]
      | (updateCommands, None) =>
          match updateCommands with
          | Some updateCommands =>
              if bool_decide (0 <= length updateCommands) then
                [SyLog "info"
                   "successfully bulk overwrote %d slash commands in %s (%s)"
                   [guild.1; guild.2]]
              else []
          | None => []
          end ++ overwrite_guilds commands guilds
      end
  end.

(** The list [RegisterSlashCommands] pushes: what [internal.Filter] keeps
    of the current commands under the test [item.Type != Chat], then
    every stored schema. *)
Definition commands_to_push (st : Registry)
    (currentCommands : list PlatformCommand) : list PlatformCommand :=
  Filter A (fun item => bool_decide (CmdType item ≠ ChatApplicationCommand))
    currentCommands
  ++ (of_schema <$> (range_slash (slashCommands st)).*2).

(** commands.go, [RegisterSlashCommands]. *)
Definition RegisterSlashCommands (st : Registry) : list SyncEvent :=
  let '(currentCommands, err) := ApplicationCommands A appID "" in
  SyApplicationCommands "" ::
  match err with
  | Some err =>
      [SyLog "error" "unable to get current application commands" [];
       SyLog "error" "%s" [err]]
  | None => []
  end ++
  if bool_decide (0 <= length currentCommands) || IsDevEnv A then
    let commands := commands_to_push st currentCommands in
    if IsDevEnv A then
      SyLog "info" "Setting slash commands in %d guilds" [] ::
      overwrite_guilds commands (State_Guilds A)
    else
      SyBulkOverwrite "" commands ::
      match ApplicationCommandBulkOverwrite A appID "" commands with
      | (_, Some err) =>
          [SyLog "error" "Unable to register slash commands" [];
           SyLog "error" "%s" [err]]
      | (_, None) => []
      end
  else [].

(** interaction.go, [DeleteGuildApplicationCommands]: a failed delete is
    logged and the loop goes on. *)
Definition DeleteGuildApplicationCommands (guildID : string)
    : list SyncEvent :=
  let '(commands, err) := ApplicationCommands A appID guildID in
  SyApplicationCommands guildID ::
  match err with
  | Some err => [SyLog "error" "Error getting all slash commands %s" [err]]
  | None =>
      flat_map (fun k =>
        SyDelete guildID (CmdID k) ::
        match ApplicationCommandDelete A appID guildID (CmdID k) with
        | Some err =>
            [SyLog "error" "error deleting slash command %s %s %s"
               [discordgo.Name (CmdSchema k); CmdID k; err]]
        | None => []
        end) commands
  end.

End Sync.

(** * Vocabulary of the statements, and sample inputs *)

(** Every key of the table is in lower case. *)
Definition keys_lower (tbl : gmap string string) : Prop :=
  forall k, is_Some (tbl !! k) -> gostrings.ToLower k = k.

(** The command [AddCommand] stores: the info with the trigger appended
    to its aliases, and the function. *)
Definition stored_command (info : CommandInfo)
    (function : option BotFunction) : Command :=
  {| Info :=
       {| Aliases := Aliases info ++ [Trigger info];
          Arguments_ := Arguments_ info; Description := Description info;
          Group := Group info; ParentID := ParentID info;
          Public := Public info; IsTyping := IsTyping info;
          IsParent := IsParent info; IsChild := IsChild info;
          Trigger := Trigger info |};
     Function := function |}.

(** The child has no first argument descriptor to read: its argument map
    is nil, or the map has no key. *)
Definition no_first_key (info : CommandInfo) : bool :=
  match Arguments_ info with
  | None => true
  | Some o => bool_decide (orderedmap.Keys o = [])
  end.

(** The child's first argument descriptor is tagged subcommand-group. *)
Definition is_group (G : TG.Names) (v : Command) : bool :=
  match first_argument (Info v) with
  | Ok ar => bool_decide (TypeGuard ar = TG.SubCmdGrp G)
  | Panic _ => false
  end.

(** The options of the children that are not skipped, in visiting
    order. *)
Definition kept_options (G : TG.Names) (E : Collaborators)
    (children : list (string * Command))
    : list (option discordgo.ApplicationCommandOption) :=
  (fun kv => Some (CreateAppOptSt E (Info kv.2)))
    <$> filter (fun kv => is_group G kv.2 = false) children.

Definition skipped (G : TG.Names) (children : list (string * Command)) : nat :=
  length (filter (fun kv => is_group G kv.2 = true) children).

(** ** Sample inputs *)

(** Tag constants for the examples, each valued by its own name. *)
Definition sample_tags : TG.Names :=
  {| TG.Int := "Int"; TG.String := "String"; TG.Channel := "Channel";
     TG.User := "User"; TG.Role := "Role"; TG.Boolean := "Boolean";
     TG.SubCmd := "SubCmd"; TG.SubCmdGrp := "SubCmdGrp" |}.

Definition arg (tg : string) (required : bool) : ArgInfo :=
  {| TypeGuard := tg; ArgDescription := ""; ArgRequired := required;
     ArgChoices := None |}.

Definition command_info (trigger : string) (aliases : list string)
    (arguments : option orderedmap.OrderedMap) (isParent isChild : bool)
    (parentID : string) : CommandInfo :=
  {| Aliases := aliases; Arguments_ := arguments; Description := "";
     Group := "utility"; ParentID := parentID; Public := true;
     IsTyping := false; IsParent := isParent; IsChild := isChild;
     Trigger := trigger |}.

(** Stand-ins for the collaborators: a marker ["!"] before the trigger,
    the token lower-cased; an argument parser that keeps the text it was
    given. *)
Definition sample_collaborators : Collaborators :=
  {| ExtractCommand := fun _ content =>
       match content with
       | String "!" rest =>
           match gostrings.SplitN_space_2 rest with
           | [t] => Some (gostrings.ToLower t, "")
           | [t; r] => Some (gostrings.ToLower t, r)
           | _ => None
           end
       | _ => None
       end;
     GetGuild := fun id => {| ID := id; ResponseChannelID := "" |};
     IsAdmin := fun _ => false;
     IsMod := fun _ _ => false;
     ParseArguments := fun s _ =>
       Some {[ "text" := {| info := arg "String" false;
                            Value := VString s |} ]};
     CreateAppOptSt := fun info =>
       {| discordgo.Type_ := discordgo.ApplicationCommandOptionSubCommand;
          discordgo.OptName := Trigger info;
          discordgo.OptDescription := Description info;
          discordgo.Required := false;
          discordgo.Choices := None |} |}.

(** A parent with two children, as in the specification's example. *)
Definition config_info : CommandInfo :=
  command_info "config" [] None true false "".
Definition set_info : CommandInfo :=
  command_info "set" [] (Some [("key", arg "String" true)]) false true "config".
Definition get_info : CommandInfo :=
  command_info "get" [] (Some [("key", arg "String" true)]) false true "config".

Definition ok_handler : BotFunction := fun _ => Ok ().
Definition panicking_handler (v : PanicValue) : BotFunction :=
  fun _ => Panic v.

Definition sample_registry : Registry :=
  AddChildCommand get_info (Some ok_handler)
    (AddChildCommand set_info (Some ok_handler)
       (AddCommand config_info (Some ok_handler) empty_Registry).1).

Definition sample_message (content : string) : Message :=
  {| MessageID := "m1"; ChannelID := "c1"; GuildID := "g1";
     AuthorID := "u1"; Content := content |}.

Definition sample_guild : Guild := {| ID := "g1"; ResponseChannelID := "" |}.

(** The context a text command is run with. *)
Definition text_context (guild : Guild) (cmd : CommandInfo)
    (args : Arguments) (message : Message) : CmdContext :=
  {| CtxGuild := guild; Cmd := cmd; Args := args;
     CtxMessage := Some message; CtxInteraction := None |}.

(** A gateway on which every outbound call succeeds, and one on which the
    error notice cannot be sent. *)
Definition sample_session : Session :=
  {| State_User_ID := "bot";
     State_Channel := fun c => Some c;
     Channel := fun c => Some c;
     ChannelMessageSend := fun c content =>
       (Some {| MessageID := "e1"; ChannelID := c; GuildID := "g1";
                AuthorID := "bot"; Content := content |}, None);
     ChannelMessageDelete := fun _ _ => None;
     InteractionResponseEdit := fun i content =>
       (Some {| MessageID := "e2"; ChannelID := IChannelID i;
                GuildID := IGuildID i; AuthorID := "bot";
                Content := content |}, None);
     InteractionRespond := fun _ _ => None |}.

Definition failing_session : Session :=
  {| State_User_ID := "bot";
     State_Channel := fun c => Some c;
     Channel := fun c => Some c;
     ChannelMessageSend := fun _ _ => (None, Some "HTTP 403 Forbidden");
     ChannelMessageDelete := fun _ _ => Some "HTTP 404 Not Found";
     InteractionResponseEdit := fun _ _ => (None, Some "HTTP 404 Not Found");
     InteractionRespond := fun _ _ => None |}.

Definition sample_interaction : Interaction :=
  {| IType := InteractionMessageComponent; IGuildID := "g1";
     IChannelID := "c1";
     IMember := Some {| MemberUser := Some {| UserID := "u1" |} |};
     IName := "";
     IOptions := []; ICustomID := "confirm-button" |}.

(** A registry with one command, no parent, running [f]. *)
Definition one_command (trigger : string) (f : BotFunction) : Registry :=
  (AddCommand (command_info trigger [] None false false "") (Some f)
     empty_Registry).1.

Definition group_child : Command :=
  {| Info := command_info "roles" []
               (Some [("roles", arg "SubCmdGrp" false)]) false true "config";
     Function := Some ok_handler |}.
Definition set_child : Command :=
  {| Info := set_info; Function := Some ok_handler |}.
Definition bare_child : Command :=
  {| Info := command_info "status" [] None false true "config";
     Function := Some ok_handler |}.

(** A handler that makes its invocation visible: it panics with a runtime
    error naming the command it was run as and the text its arguments
    were parsed from, which the recovery then reports. *)
Definition describe (ctx : CmdContext) : string :=
  Trigger (Cmd ctx) +:+ ":" +:+
  match Args ctx with
  | None => "<nil>"
  | Some args =>
      match Value <$> args !! "text" with
      | Some (VString s) => s
      | _ => ""
      end
  end.
Definition telling_handler : BotFunction :=
  fun ctx => Panic (RuntimeError (describe ctx)).

Definition telling_registry : Registry :=
  AddChildCommand get_info (Some telling_handler)
    (AddChildCommand set_info (Some telling_handler)
       (AddCommand config_info (Some telling_handler) empty_Registry).1).

(** The error report of a run of [commandHandler], if there is one. *)
Definition reported (e : Eff Registry) : list string :=
  omap (fun ev => match ev with
                  | EvSendErrorReport _ _ _ _ err => Some err
                  | _ => None
                  end) (trace e).


(** ** Vocabulary of the further properties *)

(** One registration after another, from the empty registry, each of a
    struct of its own. *)
Definition register (st : Registry) (c : CommandInfo * option BotFunction)
    : Registry :=
  (AddCommand c.1 c.2 st).1.

Definition register_all (cs : list (CommandInfo * option BotFunction))
    : Registry :=
  foldl register empty_Registry cs.

(** The names a command declares, lower-cased: its aliases and its
    trigger. *)
Definition names (info : CommandInfo) : list string :=
  gostrings.ToLower <$> (Aliases info ++ [Trigger info]).

(** [childCommands[parent][trigger]] with its comma-ok result. *)
Definition child_lookup (st : Registry) (parent trigger : string)
    : option Command :=
  childCommands st !! parent ≫= fun children => children !! trigger.

(** The line the alias loop logs for a conflict. *)
Definition alias_conflict (alias trigger : string) : Event :=
  EvLog "error" "Alias was already registered %s for command %s"
    [alias; trigger].

(** All the names a list of registrations declares. *)
Definition all_names (cs : list (CommandInfo * option BotFunction))
    : list string :=
  cs ≫= fun c => names c.1.

(** The entry [ParseInteractionArgs] stores for a value. *)
Definition parsed_arg (value : GoValue) : CommandArg :=
  {| info := {| TypeGuard := ""; ArgDescription := "";
                ArgRequired := false; ArgChoices := None |};
     Value := value |}.

(** The options of an option tree with their values, each option before
    the options nested in it, siblings in order. *)
Fixpoint flatten_option (v : InteractionDataOption)
    : list (string * GoValue) :=
  match v with
  | DataOption name value options =>
      (name, value) ::
      match options with
      | None => []
      | Some options =>
          (fix each (l : list InteractionDataOption) : list (string * GoValue) :=
             match l with
             | [] => []
             | v :: l => flatten_option v ++ each l
             end) options
      end
  end.

Definition flatten_options (options : list InteractionDataOption)
    : list (string * GoValue) :=
  options ≫= flatten_option.

Fixpoint option_size (v : InteractionDataOption) : nat :=
  match v with
  | DataOption _ _ options =>
      Datatypes.S
        match options with
        | None => 0
        | Some options =>
            (fix each (l : list InteractionDataOption) : nat :=
               match l with
               | [] => 0
               | v :: l => option_size v + each l
               end) options
        end
  end.

(** Whether the invoker may run the command: bot admin, public command,
    or bot moderator of the guild. *)
Definition authorised (E : Collaborators) (command : Command)
    (i : Interaction) (uid : string) : bool :=
  IsAdmin E uid || Public (Info command)
  || IsMod E (GetGuild E (IGuildID i)) uid.

(** Entering one (name, value) pair into the argument map. *)
Definition enter_arg (args : gmap string CommandArg)
    (p : string * GoValue) : gmap string CommandArg :=
  <[p.1 := parsed_arg p.2]> args.

(** The bulk overwrites of a run, as (guild ID, commands pushed), and the
    command IDs it asked to delete, in order. *)
Definition overwrites (tr : list SyncEvent)
    : list (string * list PlatformCommand) :=
  omap (fun ev => match ev with
                  | SyBulkOverwrite g cmds => Some (g, cmds)
                  | _ => None
                  end) tr.

Definition deletes (tr : list SyncEvent) : list string :=
  omap (fun ev => match ev with
                  | SyDelete _ id => Some id
                  | _ => None
                  end) tr.

(** ** Sample inputs of the further properties *)

Definition two_commands : list (CommandInfo * option BotFunction) :=
  [ (command_info "ban" ["B"; "Banish"] None false false "", Some ok_handler);
    (command_info "kick" ["K"] None false false "", Some ok_handler) ].

Definition typing_info : CommandInfo :=
  {| Aliases := []; Arguments_ := None; Description := "";
     Group := "utility"; ParentID := ""; Public := true;
     IsTyping := true; IsParent := false; IsChild := false;
     Trigger := "slow" |}.

Definition ping_interaction : Interaction :=
  {| IType := InteractionApplicationCommand; IGuildID := "g1";
     IChannelID := "c1";
     IMember := Some {| MemberUser := Some {| UserID := "u1" |} |};
     IName := "ping";
     IOptions := [DataOption "target" (VString "all") None];
     ICustomID := "" |}.

(** The same slash command sent in a direct message: no guild, no
    member. *)
Definition dm_interaction : Interaction :=
  {| IType := InteractionApplicationCommand; IGuildID := "";
     IChannelID := "dm1"; IMember := None; IName := "ping";
     IOptions := []; ICustomID := "" |}.

Definition platform_command (id : string) (type : Z) (name : string)
    : PlatformCommand :=
  {| CmdID := id; CmdType := type;
     CmdSchema := {| discordgo.Name := name; discordgo.Description := "";
                     discordgo.Options := None |} |}.

(** A platform that holds one chat-input command and one context-menu
    command, with three guilds in the session state; the overwrite of
    guild ["2"] fails. *)
Definition sample_api (dev : bool) : CommandAPI :=
  {| ApplicationCommands := fun _ _ =>
       ([platform_command "11" 1 "old"; platform_command "12" 2 "Report"],
        None);
     ApplicationCommandBulkOverwrite := fun _ guildID cmds =>
       if String.eqb guildID "2" then (None, Some "HTTP 403 Forbidden")
       else (Some cmds, None);
     ApplicationCommandDelete := fun _ _ id =>
       if String.eqb id "11" then Some "HTTP 404 Not Found" else None;
     State_Guilds := [("first", "1"); ("second", "2"); ("third", "3")];
     IsDevEnv := dev;
     Filter := fun p l => List.filter p l |}.

(** * Properties *)

(** ** Strings *)

Lemma lower_ascii_idemp (c : ascii) :
  gostrings.lower_ascii (gostrings.lower_ascii c) = gostrings.lower_ascii c.
Proof. destruct c as [[] [] [] [] [] [] [] []]; reflexivity. Qed.

Lemma ToLower_idemp (s : string) :
  gostrings.ToLower (gostrings.ToLower s) = gostrings.ToLower s.
Proof.
  induction s as [|c s IH]; simpl; [reflexivity|].
  by rewrite lower_ascii_idemp, IH.
Qed.

Lemma ToLower_empty (s : string) : gostrings.ToLower s = "" -> s = "".
Proof. by destruct s. Qed.

(** A string with a capital in it is the lower-case form of no string. *)
Lemma not_lower_not_image (a s : string) :
  gostrings.ToLower a ≠ a -> gostrings.ToLower s ≠ a.
Proof. intros Ha <-. apply Ha, ToLower_idemp. Qed.

Lemma cut_space_no_space (s : string) :
  gostrings.no_space s = true -> gostrings.cut_space s = None.
Proof.
  induction s as [|c s IH]; simpl; [done|].
  destruct (Ascii.eqb c " "); simpl; [done|].
  intros H. by rewrite IH.
Qed.

Lemma cut_space_app (first rest : string) :
  gostrings.no_space first = true ->
  gostrings.cut_space (first +:+ " " +:+ rest) = Some (first, rest).
Proof.
  induction first as [|c s IH]; simpl; [done|].
  destruct (Ascii.eqb c " "); simpl; [done|].
  intros H. by rewrite IH.
Qed.

(** [strings.SplitN(s, " ", 2)] cuts at the first space, and only
    there. *)
Lemma SplitN_no_space (s : string) :
  gostrings.no_space s = true -> gostrings.SplitN_space_2 s = [s].
Proof.
  intros H. unfold gostrings.SplitN_space_2. by rewrite cut_space_no_space.
Qed.

Lemma SplitN_first_space (first rest : string) :
  gostrings.no_space first = true ->
  gostrings.SplitN_space_2 (first +:+ " " +:+ rest) = [first; rest].
Proof.
  intros H. unfold gostrings.SplitN_space_2. by rewrite cut_space_app.
Qed.

(** Every string is of one of the two shapes. *)
Lemma cut_space_shape (s : string) :
  match gostrings.cut_space s with
  | None => gostrings.no_space s = true
  | Some (a, b) => gostrings.no_space a = true /\ s = a +:+ " " +:+ b
  end.
Proof.
  induction s as [|c s IH]; simpl; [done|].
  destruct (Ascii.eqb_spec c " ") as [->|Hc]; simpl; [done|].
  destruct (gostrings.cut_space s) as [[a b]|]; simpl.
  - destruct IH as [Ha ->]. split; [|done].
    simpl. rewrite Ha. by destruct (Ascii.eqb_spec c " ").
  - done.
Qed.

(** ** The alias table *)

Lemma keys_lower_empty : keys_lower ∅.
Proof. intros k [v Hv]. by rewrite lookup_empty in Hv. Qed.

Section AliasLoop.
Variable T : string.
Implicit Types (acc : gmap string string * list Event) (l : list string).

Lemma add_alias_keys_lower acc a :
  keys_lower acc.1 -> keys_lower (add_alias T acc a).1.
Proof.
  intros H k. unfold add_alias.
  destruct (acc.1 !! a); simpl; [apply H|].
  destruct (decide (gostrings.ToLower a = k)) as [<-|Hne].
  - intros _. apply ToLower_idemp.
  - rewrite lookup_insert_ne by done. apply H.
Qed.

Lemma foldl_add_alias_keys_lower l acc :
  keys_lower acc.1 -> keys_lower (foldl (add_alias T) acc l).1.
Proof.
  revert acc. induction l as [|a l IH]; intros acc H; simpl; [done|].
  by apply IH, add_alias_keys_lower.
Qed.

(** An entry of the table after the loop was there before, or names
    the command being registered. *)
Lemma add_alias_values acc a k v :
  (add_alias T acc a).1 !! k = Some v -> acc.1 !! k = Some v \/ v = T.
Proof.
  unfold add_alias. destruct (acc.1 !! a); simpl; [by left|].
  destruct (decide (gostrings.ToLower a = k)) as [<-|Hne].
  - rewrite lookup_insert_eq. intros [= <-]. by right.
  - rewrite lookup_insert_ne by done. by left.
Qed.

Lemma foldl_add_alias_values l acc k v :
  (foldl (add_alias T) acc l).1 !! k = Some v ->
  acc.1 !! k = Some v \/ v = T.
Proof.
  revert acc. induction l as [|a l IH]; intros acc; simpl; [by left|].
  intros H. destruct (IH _ H) as [H' | ->]; [|by right].
  by apply add_alias_values in H'.
Qed.

(** Once an entry names the command being registered, it stays. *)
Lemma add_alias_own acc a k :
  acc.1 !! k = Some T -> (add_alias T acc a).1 !! k = Some T.
Proof.
  intros H. unfold add_alias. destruct (acc.1 !! a); simpl; [done|].
  destruct (decide (gostrings.ToLower a = k)) as [<-|Hne].
  - by rewrite lookup_insert_eq.
  - by rewrite lookup_insert_ne.
Qed.

Lemma foldl_add_alias_own l acc k :
  acc.1 !! k = Some T -> (foldl (add_alias T) acc l).1 !! k = Some T.
Proof.
  revert acc. induction l as [|a l IH]; intros acc H; simpl; [done|].
  by apply IH, add_alias_own.
Qed.

(** The guard looks the alias up as written. A table with lower-case
    keys therefore never holds an alias written with a capital, and
    such an alias takes the entry of its lower-case form over. *)
Lemma add_alias_capital acc a :
  keys_lower acc.1 -> gostrings.ToLower a ≠ a ->
  (add_alias T acc a).1 !! gostrings.ToLower a = Some T.
Proof.
  intros Hk Ha. unfold add_alias.
  destruct (acc.1 !! a) as [v|] eqn:Hv; simpl.
  - destruct Ha. apply Hk. by rewrite Hv.
  - by rewrite lookup_insert_eq.
Qed.

Lemma foldl_add_alias_capital l acc a :
  keys_lower acc.1 -> a ∈ l -> gostrings.ToLower a ≠ a ->
  (foldl (add_alias T) acc l).1 !! gostrings.ToLower a = Some T.
Proof.
  revert acc. induction l as [|b l IH]; intros acc Hk Hin Ha; simpl.
  - by apply elem_of_nil in Hin.
  - apply elem_of_cons in Hin as [<-|Hin].
    + by apply foldl_add_alias_own, add_alias_capital.
    + apply IH; [by apply add_alias_keys_lower|done|done].
Qed.

(** After the loop every alias has an entry under its lower-case
    form. *)
Lemma add_alias_present acc a :
  keys_lower acc.1 ->
  is_Some ((add_alias T acc a).1 !! gostrings.ToLower a).
Proof.
  intros Hk. unfold add_alias.
  destruct (acc.1 !! a) as [v|] eqn:Hv; simpl.
  - rewrite (Hk a) by (by rewrite Hv). by rewrite Hv.
  - by rewrite lookup_insert_eq.
Qed.

Lemma add_alias_mono acc a k :
  is_Some (acc.1 !! k) -> is_Some ((add_alias T acc a).1 !! k).
Proof.
  unfold add_alias. destruct (acc.1 !! a); simpl; [done|].
  intros H. destruct (decide (gostrings.ToLower a = k)) as [<-|Hne].
  - by rewrite lookup_insert_eq.
  - by rewrite lookup_insert_ne.
Qed.

Lemma foldl_add_alias_mono l acc k :
  is_Some (acc.1 !! k) -> is_Some ((foldl (add_alias T) acc l).1 !! k).
Proof.
  revert acc. induction l as [|a l IH]; intros acc H; simpl; [done|].
  by apply IH, add_alias_mono.
Qed.

Lemma foldl_add_alias_present l acc a :
  keys_lower acc.1 -> a ∈ l ->
  is_Some ((foldl (add_alias T) acc l).1 !! gostrings.ToLower a).
Proof.
  revert acc. induction l as [|b l IH]; intros acc Hk Hin; simpl.
  - by apply elem_of_nil in Hin.
  - apply elem_of_cons in Hin as [<-|Hin].
    + by apply foldl_add_alias_mono, add_alias_present.
    + apply IH; [by apply add_alias_keys_lower|done].
Qed.

(** An entry is left alone by every alias that is spelled as its key
    or belongs under another key. *)
Lemma foldl_add_alias_kept l acc k v :
  acc.1 !! k = Some v ->
  (forall a, a ∈ l -> gostrings.ToLower a = k -> a = k) ->
  (foldl (add_alias T) acc l).1 !! k = Some v.
Proof.
  revert acc. induction l as [|b l IH]; intros acc Hv Hl; simpl; [done|].
  apply IH.
  - unfold add_alias. destruct (acc.1 !! b) as [w|] eqn:Hb; simpl; [done|].
    destruct (decide (gostrings.ToLower b = k)) as [Heq|Hne].
    + rewrite (Hl b) in Hb by (done || apply elem_of_cons; by left).
      congruence.
    + by rewrite lookup_insert_ne.
  - intros a Ha. apply Hl, elem_of_cons. by right.
Qed.

End AliasLoop.

(** ** Registration and the text-path lookup *)

Lemma AddCommand_commands info f st :
  commands (AddCommand info f st).1
  = <[gostrings.ToLower (Trigger info) := stored_command info f]> (commands st).
Proof. reflexivity. Qed.

Lemma AddCommand_commandAliases info f st :
  commandAliases (AddCommand info f st).1
  = (foldl (add_alias (Trigger info)) (commandAliases st, [])
       (Aliases info ++ [Trigger info])).1.
Proof. reflexivity. Qed.

Lemma AddCommand_keys_lower info f st :
  keys_lower (commandAliases st) ->
  keys_lower (commandAliases (AddCommand info f st).1).
Proof.
  intros H. rewrite AddCommand_commandAliases.
  by apply foldl_add_alias_keys_lower.
Qed.

(** An entry of the alias table after a registration was there before or
    names the registered trigger, as it was written. *)
Lemma AddCommand_alias_values info f st k v :
  commandAliases (AddCommand info f st).1 !! k = Some v ->
  commandAliases st !! k = Some v \/ v = Trigger info.
Proof.
  rewrite AddCommand_commandAliases. apply foldl_add_alias_values.
Qed.

(** An alias written with a capital takes over the entry of its
    lower-case form, whoever held it. *)
Lemma AddCommand_capital_alias info f st a :
  keys_lower (commandAliases st) ->
  a ∈ Aliases info ++ [Trigger info] ->
  gostrings.ToLower a ≠ a ->
  commandAliases (AddCommand info f st).1 !! gostrings.ToLower a
  = Some (Trigger info).
Proof.
  intros Hk Hin Ha. rewrite AddCommand_commandAliases.
  by apply foldl_add_alias_capital.
Qed.

(** An alias already held, and declared again in the spelling of its
    key, keeps its entry. *)
Lemma AddCommand_lower_alias_kept info f st k v :
  commandAliases st !! k = Some v ->
  (forall a, a ∈ Aliases info ++ [Trigger info] ->
             gostrings.ToLower a = k -> a = k) ->
  commandAliases (AddCommand info f st).1 !! k = Some v.
Proof.
  intros Hv Hl. rewrite AddCommand_commandAliases.
  by apply foldl_add_alias_kept.
Qed.

(** A trigger in lower case, free or already held by a command of that
    very trigger, resolves to the command just registered. *)
Lemma lookup_command_lower_trigger info f st :
  keys_lower (commandAliases st) ->
  gostrings.ToLower (Trigger info) = Trigger info ->
  (forall v, commandAliases st !! Trigger info = Some v -> v = Trigger info) ->
  lookup_command (AddCommand info f st).1 (Trigger info)
  = Some (stored_command info f).
Proof.
  intros Hk Hlow Hfree. unfold lookup_command.
  destruct (foldl_add_alias_present (Trigger info)
              (Aliases info ++ [Trigger info]) (commandAliases st, [])
              (Trigger info) Hk) as [v Hv].
  { apply elem_of_app. right. by apply list_elem_of_singleton. }
  rewrite Hlow in Hv.
  rewrite AddCommand_commands, AddCommand_commandAliases, Hv, Hlow.
  change (default "" (Some v)) with v.
  apply foldl_add_alias_values in Hv as [Hv | ->].
  - rewrite (Hfree v Hv). apply lookup_insert_eq.
  - apply lookup_insert_eq.
Qed.

(** On the empty registry a command with a lower-case trigger is reached
    through every alias it declares, however the alias is written, and
    through its trigger. *)
Lemma lookup_command_lower_trigger_aliases info f a :
  gostrings.ToLower (Trigger info) = Trigger info ->
  a ∈ Aliases info ++ [Trigger info] ->
  lookup_command (AddCommand info f empty_Registry).1 (gostrings.ToLower a)
  = Some (stored_command info f).
Proof.
  intros Hlow Hin. unfold lookup_command.
  destruct (foldl_add_alias_present (Trigger info)
              (Aliases info ++ [Trigger info]) (∅, []) a keys_lower_empty Hin)
    as [v Hv].
  rewrite AddCommand_commands, AddCommand_commandAliases.
  change (commandAliases empty_Registry) with (∅ : gmap string string).
  rewrite Hv. change (default "" (Some v)) with v.
  apply foldl_add_alias_values in Hv as [Hv | ->].
  - cbn in Hv. by rewrite lookup_empty in Hv.
  - rewrite Hlow. apply lookup_insert_eq.
Qed.

(** With a capital in the trigger, registration on the empty registry
    leaves a table through which no token resolves. *)
Lemma lookup_command_capital_trigger info f tok :
  gostrings.ToLower (Trigger info) ≠ Trigger info ->
  lookup_command (AddCommand info f empty_Registry).1 tok = None.
Proof.
  intros Hcap. unfold lookup_command.
  rewrite AddCommand_commands. simpl commands.
  rewrite lookup_insert_ne; [apply lookup_empty|].
  destruct (commandAliases _ !! tok) as [v|] eqn:Hv; simpl.
  - apply AddCommand_alias_values in Hv as [Hv | ->]; [|done].
    cbn in Hv. by rewrite lookup_empty in Hv.
  - intros H. apply ToLower_empty in H. apply Hcap. by rewrite H.
Qed.

(** A second registration of a lower-case trigger replaces the first, and
    the trigger resolves to it. *)
Lemma trigger_collision_lower info1 info2 f1 f2 :
  Trigger info1 = Trigger info2 ->
  gostrings.ToLower (Trigger info2) = Trigger info2 ->
  let st2 := (AddCommand info2 f2 (AddCommand info1 f1 empty_Registry).1).1 in
  commands st2 = {[ Trigger info2 := stored_command info2 f2 ]}
  /\ lookup_command st2 (Trigger info2) = Some (stored_command info2 f2).
Proof.
  intros HT Hlow. split.
  - rewrite !AddCommand_commands, HT, Hlow. cbn.
    by rewrite insert_insert_eq, insert_empty.
  - apply lookup_command_lower_trigger; [|done|].
    + apply AddCommand_keys_lower, keys_lower_empty.
    + intros v Hv. apply AddCommand_alias_values in Hv as [Hv | ->]; [|done].
      cbn in Hv. by rewrite lookup_empty in Hv.
Qed.

(** C2 (the code departs from the claim). A command whose trigger is
    written with a capital letter is stored in the trigger table under
    the lower-cased trigger, while the alias table maps every alias to the
    trigger as written: after its registration on the empty registry the
    dispatch lookup [commands[commandAliases[token]]] finds no command,
    whatever the token, and so not for the lower-cased trigger either. *)
Theorem C2_capital_trigger_never_resolves info f :
  gostrings.ToLower (Trigger info) ≠ Trigger info ->
  commands (AddCommand info f empty_Registry).1
    !! gostrings.ToLower (Trigger info) = Some (stored_command info f)
  /\ forall tok,
       lookup_command (AddCommand info f empty_Registry).1 tok = None.
Proof.
  intros Hcap. split.
  - rewrite AddCommand_commands. apply lookup_insert_eq.
  - intros tok. by apply lookup_command_capital_trigger.
Qed.

(** C3 (the code departs from the claim). The guard of the alias loop
    asks the table for the alias as written, and the table is keyed in
    lower case: an alias written with a capital letter is never found, so
    a second command declaring it takes the entry away from the command
    that held it. *)
Theorem C3_capital_alias_is_overwritten info1 info2 f1 f2 st a :
  keys_lower (commandAliases st) ->
  a ∈ Aliases info1 -> a ∈ Aliases info2 ->
  gostrings.ToLower a ≠ a ->
  let st1 := (AddCommand info1 f1 st).1 in
  let st2 := (AddCommand info2 f2 st1).1 in
  commandAliases st1 !! gostrings.ToLower a = Some (Trigger info1)
  /\ commandAliases st2 !! gostrings.ToLower a = Some (Trigger info2).
Proof.
  intros Hk H1 H2 Ha. split.
  - apply AddCommand_capital_alias; [done| |done].
    apply elem_of_app. by left.
  - apply AddCommand_capital_alias; [|  |done].
    + by apply AddCommand_keys_lower.
    + apply elem_of_app. by left.
Qed.

(** C8 (the code departs from the claim). Two registrations of a trigger
    written with a capital letter: the trigger table holds the second
    command alone, under the lower-cased trigger, but every entry of the
    alias table names a trigger as written, which is no key of the
    trigger table; dispatch finds no command, for any token. *)
Theorem C8_capital_trigger_collision info1 info2 f1 f2 :
  gostrings.ToLower (Trigger info1) = gostrings.ToLower (Trigger info2) ->
  gostrings.ToLower (Trigger info1) ≠ Trigger info1 ->
  gostrings.ToLower (Trigger info2) ≠ Trigger info2 ->
  let st2 := (AddCommand info2 f2 (AddCommand info1 f1 empty_Registry).1).1 in
  commands st2
  = {[ gostrings.ToLower (Trigger info2) := stored_command info2 f2 ]}
  /\ forall tok, lookup_command st2 tok = None.
Proof.
  intros Heq Hc1 Hc2. split.
  - rewrite !AddCommand_commands, Heq. cbn.
    by rewrite insert_insert_eq, insert_empty.
  - intros tok. unfold lookup_command.
    rewrite !AddCommand_commands, Heq. cbn -[AddCommand].
    rewrite insert_insert_eq, lookup_insert_ne; [apply lookup_empty|].
    destruct (commandAliases _ !! tok) as [v|] eqn:Hv; simpl.
    + apply AddCommand_alias_values in Hv as [Hv | ->]; [|done].
      apply AddCommand_alias_values in Hv as [Hv | ->]; [|congruence].
      cbn in Hv. by rewrite lookup_empty in Hv.
    + intros H. apply ToLower_empty in H. apply Hc2. by rewrite H.
Qed.

(** ** Schema synthesis *)

Lemma Get_Keys (o : orderedmap.OrderedMap) (k : string) :
  k ∈ orderedmap.Keys o -> is_Some (orderedmap.Get o k).
Proof.
  induction o as [|[k' v] o IH]; simpl.
  - intros H. by apply elem_of_nil in H.
  - intros H. destruct (decide (k' = k)); [done|].
    apply elem_of_cons in H as [H|H]; [congruence|]. by apply IH.
Qed.

Section SchemaFacts.
Variable G : TG.Names.
Variable E : Collaborators.

(** A tag outside the table has no entry. *)
Lemma applicationCommandTypes_unmapped tg :
  tg ∉ TG.all G -> applicationCommandTypes G !! tg = None.
Proof.
  intros H. apply not_elem_of_list_to_map_1. exact H.
Qed.

(** The entry of the literal key ["String"] is the string option type
    exactly when the constant [String] has that literal as its value. *)
Lemma applicationCommandTypes_String_literal :
  NoDup (TG.all G) ->
  applicationCommandTypes G !! "String"
    = Some discordgo.ApplicationCommandOptionString
  <-> TG.String G = "String".
Proof.
  intros Hnd. split.
  - intros H. apply elem_of_list_to_map_2 in H.
    repeat (apply elem_of_cons in H as [H|H]; [by inversion H|]).
    by apply elem_of_nil in H.
  - intros H. apply elem_of_list_to_map_1; [exact Hnd|].
    rewrite <- H. apply elem_of_cons. right. apply elem_of_cons. by left.
Qed.

(** The loop over the keys fills the slice from the cursor on, one
    option per key, and touches nothing else. *)
Lemma fill_options_spec o keys pre n :
  (forall k, k ∈ keys -> is_Some (orderedmap.Get o k)) ->
  fill_options G o (length pre) keys
    (pre ++ replicate (length keys + n) None)
  = Ok (pre
        ++ ((fun k => make_option G k <$> orderedmap.Get o k) <$> keys)
        ++ replicate n None).
Proof.
  revert pre. induction keys as [|k keys IH]; intros pre Hk; simpl.
  - reflexivity.
  - destruct (Hk k) as [vv Hvv]; [apply elem_of_cons; by left|].
    rewrite Hvv. simpl.
    rewrite insert_app_r_alt by lia.
    replace (length pre - length pre) with 0 by lia. simpl.
    rewrite (cons_middle (Some (make_option G k vv))), app_assoc.
    replace (Datatypes.S (length pre))
      with (length (pre ++ [Some (make_option G k vv)]))
      by (rewrite length_app; simpl; lia).
    rewrite IH.
    + by rewrite <- app_assoc.
    + intros k' Hk'. apply Hk, elem_of_cons. by right.
Qed.

(** A command with arguments gets one option per key, in key order. *)
Lemma createApplicationCommandStruct_options info o :
  Arguments_ info = Some o -> o ≠ [] ->
  createApplicationCommandStruct G info
  = Ok {| discordgo.Name := Trigger info;
          discordgo.Description := Description info;
          discordgo.Options :=
            Some ((fun k => make_option G k <$> orderedmap.Get o k)
                    <$> orderedmap.Keys o) |}.
Proof.
  intros Ho Hne. unfold createApplicationCommandStruct. rewrite Ho.
  rewrite bool_decide_eq_false_2.
  - pose proof (fill_options_spec o (orderedmap.Keys o) [] 0) as H.
    simpl in H. rewrite Nat.add_0_r, app_nil_r in H.
    rewrite H; [done|]. intros k. apply Get_Keys.
  - destruct o; [done|]. unfold orderedmap.Keys. simpl. lia.
Qed.

(** A command without arguments gets no option slice at all. *)
Lemma createApplicationCommandStruct_no_arguments info :
  Arguments_ info = None \/ Arguments_ info = Some [] ->
  createApplicationCommandStruct G info
  = Ok {| discordgo.Name := Trigger info;
          discordgo.Description := Description info;
          discordgo.Options := None |}.
Proof.
  unfold createApplicationCommandStruct. by intros [-> | ->].
Qed.

End SchemaFacts.

(** The fallback for a type tag that is none of the eight mapped tags
    reads the table at the literal key ["String"], while the table is
    keyed by the tag constants, which are declared outside these files
    (pairwise distinct, as the keys of a map literal must be). So the tag
    falls back to the string option type exactly when the constant
    [String] has that literal as its value; with any other value the
    fallback is the zero option type. *)
Lemma option_type_unmapped_iff (G : TG.Names) (tg : string) :
  NoDup (TG.all G) -> tg ∉ TG.all G ->
  option_type G tg = discordgo.ApplicationCommandOptionString
  <-> TG.String G = "String".
Proof.
  intros Hnd Htag. unfold option_type.
  rewrite applicationCommandTypes_unmapped by done.
  rewrite <- applicationCommandTypes_String_literal by done.
  split.
  - destruct (applicationCommandTypes G !! "String") as [v|]; simpl.
    + by intros ->.
    + discriminate.
  - by intros ->.
Qed.

Lemma first_argument_no_key info :
  no_first_key info = true ->
  first_argument info = Panic nil_dereference
  \/ first_argument info = Panic index_out_of_range.
Proof.
  unfold no_first_key, first_argument.
  destruct (Arguments_ info) as [o|]; [|by left].
  intros H%bool_decide_eq_true. rewrite H. by right.
Qed.

Lemma first_argument_key info :
  no_first_key info = false -> exists ar, first_argument info = Ok ar.
Proof.
  unfold no_first_key, first_argument.
  destruct (Arguments_ info) as [o|]; [|done].
  intros H%bool_decide_eq_false.
  destruct o as [|[k v] o]; [done|]. simpl.
  rewrite decide_True by done. by exists v.
Qed.

Section ChildrenLoop.
Variable G : TG.Names.
Variable E : Collaborators.

Lemma kept_skipped_length children :
  length (kept_options G E children) + skipped G children = length children.
Proof.
  unfold kept_options, skipped. rewrite length_fmap.
  induction children as [|kv children IH]; [done|].
  rewrite !filter_cons.
  destruct (is_group G kv.2) eqn:Hg; repeat case_decide;
    try congruence; simpl in *; lia.
Qed.

(** The loop panics at the first child without a first key, whatever
    it has written so far. *)
Lemma fill_children_panics children pos opts :
  Exists (fun kv => no_first_key (Info kv.2) = true) children ->
  fill_children G E children pos opts = Panic nil_dereference
  \/ fill_children G E children pos opts = Panic index_out_of_range.
Proof.
  revert pos opts.
  induction children as [|[k v] children IH]; intros pos opts Hex.
  - by apply Exists_nil in Hex.
  - simpl. destruct (no_first_key (Info v)) eqn:Hv.
    + destruct (first_argument_no_key _ Hv) as [-> | ->]; simpl; auto.
    + destruct (first_argument_key _ Hv) as [ar ->]. simpl.
      apply Exists_cons in Hex as [Hex|Hex]; [simpl in Hex; congruence|].
      destruct (decide _); by apply IH.
Qed.

Lemma kept_options_group k v children :
  is_group G v = true ->
  kept_options G E ((k, v) :: children) = kept_options G E children.
Proof.
  intros Hg. unfold kept_options. rewrite filter_cons. simpl.
  by rewrite decide_False by congruence.
Qed.

Lemma kept_options_keep k v children :
  is_group G v = false ->
  kept_options G E ((k, v) :: children)
  = Some (CreateAppOptSt E (Info v)) :: kept_options G E children.
Proof.
  intros Hg. unfold kept_options. rewrite filter_cons. simpl.
  by rewrite decide_True by done.
Qed.

(** When every child has a first key, the loop writes the options of
    the children it keeps next to each other from the cursor on; the
    slots it does not reach stay nil. *)
Lemma fill_children_spec children pre m :
  Forall (fun kv => no_first_key (Info kv.2) = false) children ->
  length (kept_options G E children) <= m ->
  fill_children G E children (length pre) (pre ++ replicate m None)
  = Ok (pre ++ kept_options G E children
            ++ replicate (m - length (kept_options G E children)) None).
Proof.
  revert pre m.
  induction children as [|[k v] children IH]; intros pre m Hall Hm.
  - simpl. by rewrite Nat.sub_0_r.
  - apply Forall_cons in Hall as [Hv Hall]. simpl in Hv.
    destruct (first_argument_key _ Hv) as [ar Har].
    simpl. rewrite Har. simpl.
    destruct (decide (TypeGuard ar = TG.SubCmdGrp G)) as [Hg|Hg].
    + assert (is_group G v = true) as Hgv.
      { unfold is_group. rewrite Har. by apply bool_decide_eq_true_2. }
      rewrite kept_options_group in * by done. by apply IH.
    + assert (is_group G v = false) as Hgv.
      { unfold is_group. rewrite Har. by apply bool_decide_eq_false_2. }
      rewrite kept_options_keep in * by done.
      rewrite length_cons in Hm.
      destruct m as [|m]; [lia|].
      rewrite insert_app_r_alt by lia.
      replace (length pre - length pre) with 0 by lia.
      rewrite replicate_S. simpl insert.
      rewrite (cons_middle (Some (CreateAppOptSt E (Info v))) pre), app_assoc.
      replace (Datatypes.S (length pre))
        with (length (pre ++ [Some (CreateAppOptSt E (Info v))]))
        by (rewrite length_app; simpl; lia).
      rewrite IH; [|done|lia].
      rewrite <- app_assoc, length_cons. reflexivity.
Qed.

End ChildrenLoop.

(** C9. [createChatInputSubCmdStruct] reads the first argument-descriptor
    key of every child it visits. Whatever the order of the visit: if a
    child of the map has a nil argument map or no key, the call panics
    (nil dereference or index out of range); if every child has a first
    key, the call returns an option slice as long as the child map, with
    the options of the kept children in front, in visiting order, and one
    nil entry at the end for every child skipped as subcommand-group. *)
Theorem C9_subcommand_struct_reads_first_key
    (G : TG.Names) (E : Collaborators)
    (range_order : gmap string Command -> list (string * Command))
    (info : CommandInfo) (childCmds : gmap string Command) :
  range_order childCmds ≡ₚ map_to_list childCmds ->
  ((exists k v, childCmds !! k = Some v /\ no_first_key (Info v) = true) ->
     createChatInputSubCmdStruct G E range_order info childCmds
       = Panic nil_dereference
     \/ createChatInputSubCmdStruct G E range_order info childCmds
       = Panic index_out_of_range)
  /\ ((forall k v, childCmds !! k = Some v -> no_first_key (Info v) = false) ->
      let children := range_order childCmds in
      let opts :=
        kept_options G E children ++ replicate (skipped G children) None in
      createChatInputSubCmdStruct G E range_order info childCmds
        = Ok {| discordgo.Name := Trigger info;
                discordgo.Description := Description info;
                discordgo.Options := Some opts |}
      /\ length opts = size childCmds
      /\ ((exists k v, childCmds !! k = Some v /\ is_group G v = true) ->
          0 < skipped G children
          /\ forall i, length (kept_options G E children) <= i < size childCmds ->
                       opts !! i = Some None)).
Proof.
  intros Hperm.
  assert (forall k v, (k, v) ∈ range_order childCmds <-> childCmds !! k = Some v)
    as Hin.
  { intros k v. rewrite Hperm. apply elem_of_map_to_list. }
  assert (length (range_order childCmds) = size childCmds) as Hlen.
  { rewrite Hperm. apply length_map_to_list. }
  split.
  - intros (k & v & Hkv & Hbad).
    unfold createChatInputSubCmdStruct.
    destruct (fill_children_panics G E (range_order childCmds) 0
                (replicate (size childCmds) None)) as [-> | ->]; auto.
    apply Exists_exists. exists (k, v). split; [by apply Hin|done].
  - intros Hall children opts.
    pose proof (kept_skipped_length G E children) as Hks.
    fold children in Hlen.
    assert (createChatInputSubCmdStruct G E range_order info childCmds
            = Ok {| discordgo.Name := Trigger info;
                    discordgo.Description := Description info;
                    discordgo.Options := Some opts |}) as Hres.
    { unfold createChatInputSubCmdStruct. fold children.
      pose proof (fill_children_spec G E children [] (size childCmds)) as H.
      simpl in H. rewrite H.
      - simpl. subst opts. do 5 f_equal. lia.
      - apply Forall_forall. intros [k v] Hkv. apply (Hall k), Hin, Hkv.
      - lia. }
    split; [exact Hres|].
    assert (length opts = size childCmds) as Hlo.
    { subst opts. rewrite length_app, length_replicate. lia. }
    split; [exact Hlo|].
    intros (k & v & Hkv & Hg). split.
    + unfold skipped.
      assert ((k, v) ∈ filter (fun kv => is_group G kv.2 = true) children)
        as Hf by (apply list_elem_of_filter; split; [done|by apply Hin]).
      destruct (filter _ children); [by apply elem_of_nil in Hf|simpl; lia].
    + intros i Hi. subst opts.
      rewrite lookup_app_r by lia.
      apply lookup_replicate_2. lia.
Qed.

(** The flat schema is always there to be stored: with the argument map
    as keys and their values, no lookup of a key fails. *)
Lemma createApplicationCommandStruct_returns (G : TG.Names)
    (info : CommandInfo) :
  exists s, createApplicationCommandStruct G info = Ok s.
Proof.
  destruct (Arguments_ info) as [[|kv o]|] eqn:Ho.
  - eexists. apply createApplicationCommandStruct_no_arguments. by right.
  - eexists. by apply createApplicationCommandStruct_options.
  - eexists. apply createApplicationCommandStruct_no_arguments. by left.
Qed.

(** The two tests of [AddSlashCommand], [!IsParent || !IsChild] and then
    [IsParent], leave two ways through it: the schema synthesized from the
    children for a command that is parent and child at once, the flat
    schema for every other command. *)
Lemma AddSlashCommand_branches (G : TG.Names) (E : Collaborators)
    (range_order : gmap string Command -> list (string * Command))
    (info : CommandInfo) (st : Registry) :
  AddSlashCommand G E range_order info st
  = if IsParent info && IsChild info then
      s ← createChatInputSubCmdStruct G E range_order info
             (default ∅ (childCommands st !! Trigger info));
      Ok (set_slashCommand st (gostrings.ToLower (Trigger info)) s)
    else
      s ← createApplicationCommandStruct G info;
      Ok (set_slashCommand st (gostrings.ToLower (Trigger info)) s).
Proof.
  unfold AddSlashCommand. by destruct (IsParent info), (IsChild info).
Qed.



(** ** Child-command resolution *)

(** [AddChildCommand] files the child under the lower-cased parent ID and
    the child's trigger as written; [handleChildCommand] reads the table
    under the parent's trigger as written. For a parent with a lower-case
    trigger the two agree, and a child registered for it is found. *)
Lemma registered_child_is_found (E : Collaborators) (st : Registry)
    (info : CommandInfo) (function : option BotFunction) (parent : Command)
    (message : Message) (guild : Guild) :
  gostrings.ToLower (ParentID info) = Trigger (Info parent) ->
  gostrings.no_space (Trigger info) = true ->
  child_invocation E (AddChildCommand info function st) (Trigger info)
    parent message guild
  = (function,
     text_context guild info (ParseArguments E "" (Arguments_ info)) message).
Proof.
  intros Hparent Hns. unfold child_invocation.
  rewrite SplitN_no_space by done. simpl.
  rewrite <- Hparent, !lookup_insert_eq. simpl.
  by rewrite lookup_insert_eq.
Qed.

(** Under any other key the registration is not seen by the parent: a
    child filed for a parent ID whose lower-case form is not the parent's
    trigger as written leaves the parent's resolution as it was. *)
Lemma child_under_other_key_is_not_found (E : Collaborators) (st : Registry)
    (info : CommandInfo) (function : option BotFunction) (parent : Command)
    (argString : string) (message : Message) (guild : Guild) :
  gostrings.ToLower (ParentID info) ≠ Trigger (Info parent) ->
  child_invocation E (AddChildCommand info function st) argString
    parent message guild
  = child_invocation E st argString parent message guild.
Proof.
  intros Hne. unfold child_invocation. simpl.
  by rewrite lookup_insert_ne.
Qed.

(** C5. A remainder is either a token without a space, or such a token,
    a space, and the rest; [handleChildCommand] looks the token up among
    the children filed under the parent's trigger. No such child: the
    parent's own function is called, with nil arguments. A child and no
    space in the remainder: the child's function is called with the
    arguments parsed from the empty string. A child and a rest: the
    child's function is called with the arguments parsed from the rest.
    [commandHandler] hands every parent command to this resolution, and
    [handleChildCommand] makes exactly this call. *)
Theorem C5_child_command_resolution
    (E : Collaborators) (st : Registry) (first rest : string)
    (command : Command) (message : Message) (guild : Guild) :
  gostrings.no_space first = true ->
  let children := default ∅ (childCommands st !! Trigger (Info command)) in
  let to_parent :=
    (Function command, text_context guild (Info command) None message) in
  let to_child childCmd text :=
    (Function childCmd,
     text_context guild (Info childCmd)
       (ParseArguments E text (Arguments_ (Info childCmd))) message) in
  (children !! first = None ->
     child_invocation E st first command message guild = to_parent
     /\ child_invocation E st (first +:+ " " +:+ rest) command message guild
        = to_parent)
  /\ (forall childCmd, children !! first = Some childCmd ->
        child_invocation E st first command message guild
          = to_child childCmd ""
        /\ child_invocation E st (first +:+ " " +:+ rest) command message guild
           = to_child childCmd rest)
  /\ (forall argString,
        handleChildCommand E st argString command message guild
        = call (child_invocation E st argString command message guild).1
               (child_invocation E st argString command message guild).2)
  /\ (forall argString,
        IsParent (Info command) = true ->
        run_command E st argString command message guild
        = (lift (handleChildCommand E st argString command message guild);;
           mret st)).
Proof.
  intros Hfirst children to_parent to_child.
  split; [|split; [|split]].
  - intros Hnone. unfold child_invocation.
    rewrite SplitN_no_space, SplitN_first_space by done. simpl.
    fold children. by rewrite Hnone.
  - intros childCmd Hsome. unfold child_invocation.
    rewrite SplitN_no_space, SplitN_first_space by done. simpl.
    fold children. by rewrite Hsome.
  - reflexivity.
  - intros argString Hp. unfold run_command. by rewrite Hp.
Qed.

(** The specification's example: parent ["config"] with children ["set"]
    and ["get"]. *)
Lemma C5_config_example :
  let E := sample_collaborators in
  let st := sample_registry in
  let cfg := stored_command config_info (Some ok_handler) in
  let m := sample_message "" in
  lookup_command st "config" = Some cfg
  /\ gostrings.no_space "set" = true
  /\ child_invocation E st "set foo" cfg m sample_guild
     = (Some ok_handler,
        text_context sample_guild set_info
          (ParseArguments E "foo" (Arguments_ set_info)) m)
  /\ child_invocation E st "" cfg m sample_guild
     = (Some ok_handler, text_context sample_guild (Info cfg) None m)
  /\ child_invocation E st "bogus" cfg m sample_guild
     = (Some ok_handler, text_context sample_guild (Info cfg) None m).
Proof.
  intros E st cfg m.
  split; [reflexivity|]. split; [reflexivity|].
  split; [|split].
  - destruct (C5_child_command_resolution E st "set" "foo" cfg m sample_guild
                eq_refl) as (_ & Hchild & _).
    apply (Hchild {| Info := set_info; Function := Some ok_handler |}).
    vm_compute. reflexivity.
  - destruct (C5_child_command_resolution E st "" "" cfg m sample_guild
                eq_refl) as (Hparent & _).
    apply Hparent. vm_compute. reflexivity.
  - destruct (C5_child_command_resolution E st "bogus" "" cfg m sample_guild
                eq_refl) as (Hparent & _).
    apply Hparent. vm_compute. reflexivity.
Defined.

(** The same example through [commandHandler], from the message text to
    the handler that runs. *)
Lemma commandHandler_config_example :
  let run content :=
    reported (commandHandler sample_collaborators sample_session
                telling_registry (sample_message content)) in
  run "!config set foo" = ["set:foo"]
  /\ run "!config get" = ["get:"]
  /\ run "!config" = ["config:<nil>"]
  /\ run "!config bogus" = ["config:<nil>"]
  /\ run "!CONFIG set foo bar" = ["set:foo bar"]
  /\ run "config set foo" = [].
Proof. repeat split; vm_compute; reflexivity. Qed.

(** ** The failure-recovery middleware *)

(** With a runtime error to report and a gateway that answers, the
    recovery does what it is there for: report, notice, pause, retract. *)
Lemma handleCommandError_reports (S : Session) (gID cId uId msg : string)
    (m : Message) (err : option string) :
  ChannelMessageSend S cId "Error!" = (Some m, err) ->
  outcome (handleCommandError S gID cId uId (Some (RuntimeError msg))) = Ok ()
  /\ EvSendErrorReport gID cId uId "Error!" msg
       ∈ trace (handleCommandError S gID cId uId (Some (RuntimeError msg)))
  /\ EvChannelMessageSend cId "Error!"
       ∈ trace (handleCommandError S gID cId uId (Some (RuntimeError msg)))
  /\ last (trace (handleCommandError S gID cId uId (Some (RuntimeError msg))))
     = Some (EvChannelMessageDelete cId (MessageID m)).
Proof.
  intros Hsend. unfold handleCommandError. cbn. rewrite Hsend.
  destruct err; cbn; (split; [reflexivity|]);
    (split; [set_solver|]); (split; [set_solver|reflexivity]).
Qed.

(** Nothing to recover, nothing done. *)
Lemma handleCommandError_no_panic (S : Session) (gID cId uId : string) :
  handleCommandError S gID cId uId None = mret ().
Proof. reflexivity. Qed.

Lemma handleInteractionError_no_panic (S : Session) (i : Interaction) :
  handleInteractionError S i None = mret ().
Proof. reflexivity. Qed.

(** The one way [i.Member.User.ID] panics. *)
Lemma Member_User_ID_panic (i : Interaction) (v : PanicValue) :
  Member_User_ID i = Panic v -> v = nil_dereference.
Proof.
  unfold Member_User_ID.
  destruct (IMember i) as [[[[uid]|]]|]; simpl; intros H; by simplify_eq.
Qed.

(** C1 (the code departs from the claim). Both recovery functions assert
    the recovered value to be a [runtime.Error] without the comma-ok form,
    and both use the message a failed send or edit returned. A handler
    that panics with any other value makes the deferred recovery panic
    itself, after the two log lines and before any report or notice; the
    panic leaves the function that deferred it. So does a failed send
    (text path) or a failed edit (interaction path) after a runtime
    error. A command whose handler runs [panic("boom")] brings
    [commandHandler] down. On the interaction path the recovery reads
    [i.Member.User.ID] before the assertion: for an interaction without a
    member it is that read which panics, at the same place. *)
Theorem C1_recovery_can_panic (S : Session) (gID cId uId : string)
    (i : Interaction) (r : PanicValue) (msg err : string) :
  (assert_runtime_Error r = None ->
     let text :=
       with_deferred () (lift (Panic r)) (handleCommandError S gID cId uId) in
     let inter :=
       with_deferred () (lift (Panic r)) (handleInteractionError S i) in
     outcome text = Panic interface_conversion
     /\ trace text
        = [EvLog "warning" "Recovering from panic: %s" [show_panic r];
           EvLog "warning" "Sending Error report to admins" []]
     /\ outcome inter
        = Panic match Member_User_ID i with
                | Ok _ => interface_conversion
                | Panic v => v
                end
     /\ trace inter = trace text)
  /\ (ChannelMessageSend S cId "Error!" = (None, Some err) ->
      outcome (with_deferred () (lift (Panic (RuntimeError msg)))
                 (handleCommandError S gID cId uId))
      = Panic nil_dereference)
  /\ (InteractionResponseEdit S i "error executing command" = (None, Some err) ->
      outcome (with_deferred () (lift (Panic (RuntimeError msg)))
                 (handleInteractionError S i))
      = Panic nil_dereference)
  /\ outcome (commandHandler sample_collaborators sample_session
                (one_command "boom" (panicking_handler (StringValue "boom")))
                (sample_message "!boom"))
     = Panic interface_conversion.
Proof.
  split; [|split; [|split]].
  - intros Hr. unfold with_deferred, handleCommandError, handleInteractionError.
    cbn. rewrite Hr. cbn. by destruct (Member_User_ID i).
  - intros Hsend. unfold with_deferred, handleCommandError. cbn.
    rewrite Hsend. reflexivity.
  - intros Hedit. unfold with_deferred, handleInteractionError. cbn.
    destruct (Member_User_ID i) as [uid|v] eqn:Hmember; cbn.
    + rewrite Hedit. cbn. by destruct (InteractionRespond S i _).
    + by rewrite (Member_User_ID_panic i v Hmember).
  - vm_compute. reflexivity.
Qed.

(** A deferred recovery around a body that panics is the recovery run on
    the panic value. *)
Lemma with_deferred_panic (d : option PanicValue -> Eff unit) (v : PanicValue) :
  with_deferred () (lift (Panic v)) d = d (Some v).
Proof.
  unfold with_deferred. simpl.
  destruct (d (Some v)) as [tr [[]|w]]; reflexivity.
Qed.

(** C10. A component activation whose CustomID has no registered handler
    is not turned away. The call of [handleInteractionError] in the
    not-found branch is no deferred call and recovers nothing; the
    function goes on to call the nil [Function] of the zero-value
    handler, which panics with a nil dereference, and the deferred
    recovery treats that panic like any handler failure: the whole call
    is the recovery run on the nil-dereference panic, just as for a
    registered handler that fails that way. *)
Theorem C10_unregistered_component_handler
    (S : Session) (st : Registry) (i : Interaction) :
  interactionHandlers st !! ICustomID i = None ->
  handleInteractionError S i None = mret ()
  /\ call (HFunction zero_InteractionHandler)
       {| InteractionCreate := i; CtxInfo := HInfo zero_InteractionHandler |}
     = Panic nil_dereference
  /\ handleMessageComponents S st i
     = handleInteractionError S i (Some nil_dereference)
  /\ forall st' h f,
       interactionHandlers st' !! ICustomID i = Some h ->
       HFunction h = Some f ->
       f {| InteractionCreate := i; CtxInfo := HInfo h |}
         = Panic nil_dereference ->
       handleMessageComponents S st' i = handleMessageComponents S st i.
Proof.
  intros Hnone.
  assert (handleMessageComponents S st i
          = handleInteractionError S i (Some nil_dereference)) as Hmiss.
  { unfold handleMessageComponents. rewrite Hnone.
    rewrite bool_decide_eq_false_2 by (by intros [? ?]).
    rewrite handleInteractionError_no_panic. simpl default.
    change (call (HFunction zero_InteractionHandler) _)
      with (@Panic unit nil_dereference).
    rewrite with_deferred_panic.
    destruct (handleInteractionError S i (Some nil_dereference))
      as [tr [[]|w]]; reflexivity. }
  split; [reflexivity|]. split; [reflexivity|]. split; [exact Hmiss|].
  intros st' h f Hh Hf Hpanic. rewrite Hmiss.
  unfold handleMessageComponents. rewrite Hh.
  rewrite bool_decide_eq_true_2 by (by eexists).
  simpl default. rewrite Hf. unfold call. rewrite Hpanic.
  rewrite with_deferred_panic.
  destruct (handleInteractionError S i (Some nil_dereference))
    as [tr [[]|w]]; reflexivity.
Qed.

Lemma C10_unregistered_component_handler_witness :
  interactionHandlers empty_Registry !! ICustomID sample_interaction = None
  /\ handleMessageComponents failing_session empty_Registry sample_interaction
     = handleInteractionError failing_session sample_interaction
         (Some nil_dereference).
Proof.
  split; [reflexivity|].
  apply (C10_unregistered_component_handler failing_session empty_Registry
           sample_interaction).
  reflexivity.
Defined.

(** ** The GC counter *)

Lemma gc_guard_false (n : Z) : gc_guard n = false.
Proof.
  unfold gc_guard. destruct (Z.eqb_spec n 25) as [->|]; [reflexivity|done].
Qed.

Lemma int_wrap_in_range (n : Z) :
  (- 2 ^ 63 <= n < 2 ^ 63)%Z -> int_wrap n = n.
Proof. intros H. unfold int_wrap. rewrite Z.mod_small; lia. Qed.

Lemma trace_bind {A B} (m : Eff A) (k : A -> Eff B) :
  trace (m ≫= k)
  = trace m ++ match outcome m with Ok a => trace (k a) | Panic _ => [] end.
Proof.
  unfold mbind, Eff_bind. destruct (outcome m); simpl; [done|].
  by rewrite app_nil_r.
Qed.

Lemma trace_with_deferred {A} (a0 : A) (body : Eff A)
    (d : option PanicValue -> Eff unit) :
  trace (with_deferred a0 body d)
  = trace body
    ++ trace (d match outcome body with Ok _ => None | Panic v => Some v end).
Proof. unfold with_deferred. by destruct (outcome body). Qed.

Lemma outcome_bind {A B} (m : Eff A) (k : A -> Eff B) :
  outcome (m ≫= k)
  = match outcome m with Ok a => outcome (k a) | Panic v => Panic v end.
Proof. unfold mbind, Eff_bind. by destruct (outcome m). Qed.

Lemma outcome_with_deferred {A} (a0 : A) (body : Eff A)
    (d : option PanicValue -> Eff unit) :
  outcome (with_deferred a0 body d)
  = match outcome body with
    | Ok a => match outcome (d None) with Ok _ => Ok a | Panic w => Panic w end
    | Panic v =>
        match outcome (d (Some v)) with Ok _ => Ok a0 | Panic w => Panic w end
    end.
Proof. unfold with_deferred. by destruct (outcome body). Qed.

(** An event that differs from every event of an explicit list is not in
    it. *)
Ltac not_in_trace :=
  let H := fresh in
  intros H;
  repeat (apply elem_of_cons in H as [H|H]; [discriminate H|]);
  by apply elem_of_nil in H.

Lemma handleCommandError_no_FreeOSMemory (S : Session)
    (gID cId uId : string) (r : option PanicValue) :
  EvFreeOSMemory ∉ trace (handleCommandError S gID cId uId r).
Proof.
  unfold handleCommandError. destruct r as [r|]; cbn; [|not_in_trace].
  destruct (assert_runtime_Error r); cbn; [|not_in_trace].
  destruct (ChannelMessageSend S cId "Error!") as [[m|] [e|]]; cbn;
    not_in_trace.
Qed.

(** What [run_command] leaves behind: the registry as it was, or with the
    counter one further; and it never asks for memory to be freed. *)
Lemma run_command_effect (E : Collaborators) (st : Registry)
    (argString : string) (command : Command) (message : Message) (g : Guild) :
  trace (run_command E st argString command message g) = []
  /\ forall st', outcome (run_command E st argString command message g) = Ok st' ->
       st' = st \/ st' = set_commandsGC st (int_wrap (commandsGC st + 1)).
Proof.
  unfold run_command. rewrite gc_guard_false.
  destruct (IsParent (Info command)).
  - destruct (handleChildCommand _ _ _ _ _ _) as [[]|v]; cbn.
    + split; [done|]. intros st' [= <-]. by left.
    + split; [done|]. discriminate.
  - destruct (call _ _) as [[]|v]; cbn.
    + split; [done|]. intros st' [= <-]. by right.
    + split; [done|]. discriminate.
Qed.

(** [commandHandler] on a message that reaches a command that is no
    parent: the handler's return moves the counter; the handler's panic
    goes to the recovery, and the counter stays. *)
Lemma commandHandler_leaf (E : Collaborators) (S : Session) (st : Registry)
    (message : Message) (channel trigger argString : string)
    (command : Command) :
  match State_Channel S (ChannelID message) with
  | Some c => Some c
  | None => Channel S (ChannelID message)
  end = Some channel ->
  AuthorID message ≠ State_User_ID S ->
  ExtractCommand E (GetGuild E (GuildID message)) (Content message)
    = Some (trigger, argString) ->
  lookup_command st trigger = Some command ->
  IsParent (Info command) = false ->
  let g := GetGuild E (GuildID message) in
  outcome (commandHandler E S st message)
  = match call (Function command)
            (text_context g (Info command)
               (ParseArguments E argString (Arguments_ (Info command)))
               message) with
    | Ok _ => Ok (set_commandsGC st (int_wrap (commandsGC st + 1)))
    | Panic v =>
        match outcome (handleCommandError S (ID g) channel (AuthorID message)
                         (Some v)) with
        | Ok _ => Ok st
        | Panic w => Panic w
        end
    end.
Proof.
  intros Hch Hauthor Hex Hcmd Hleaf g. subst g. unfold commandHandler.
  rewrite Hch, decide_False by done. cbv zeta. rewrite Hex, Hcmd.
  rewrite outcome_bind, outcome_with_deferred.
  assert (outcome (if IsTyping (Info command)
                      && bool_decide
                           (ResponseChannelID (GetGuild E (GuildID message))
                            = "")
                   then emit (EvChannelTyping (ChannelID message))
                   else mret ()) = Ok ()) as -> by (by destruct (_ && _)).
  unfold run_command. rewrite Hleaf, gc_guard_false.
  unfold leaf_invocation, text_context. simpl.
  by destruct (call (Function command) _) as [[]|v].
Qed.

(** C6, as the code has it. The guard [commandsGC == 25 && commandsGC > 25]
    is false for every integer. [commandHandler] therefore never calls
    [debug.FreeOSMemory] and never resets the counter: it leaves the
    registry as it found it or moves the counter one further (as a Go int;
    below the greatest int that is plus one). The counter moves exactly
    when the command is no parent and its handler returns; a handler that
    panics leaves the counter where it was. *)
Theorem C6_gc_guard_never_fires (E : Collaborators) (S : Session)
    (st : Registry) (message : Message) :
  (forall n, gc_guard n = false)
  /\ (EvFreeOSMemory ∉ trace (commandHandler E S st message))
  /\ (forall st', outcome (commandHandler E S st message) = Ok st' ->
        st' = st \/ st' = set_commandsGC st (int_wrap (commandsGC st + 1)))
  /\ (forall argString command g,
        IsParent (Info command) = false ->
        let handler_run :=
          call (Function command)
            (text_context g (Info command)
               (ParseArguments E argString (Arguments_ (Info command)))
               message) in
        (handler_run = Ok () ->
           run_command E st argString command message g
           = mret (set_commandsGC st (int_wrap (commandsGC st + 1))))
        /\ (forall v, handler_run = Panic v ->
              run_command E st argString command message g = throw v
              /\ forall d, (exists a, outcome (d (Some v)) = Ok a) ->
                   outcome (with_deferred st
                              (run_command E st argString command message g) d)
                   = Ok st))
  /\ (forall channel trigger argString command,
        match State_Channel S (ChannelID message) with
        | Some c => Some c
        | None => Channel S (ChannelID message)
        end = Some channel ->
        AuthorID message ≠ State_User_ID S ->
        ExtractCommand E (GetGuild E (GuildID message)) (Content message)
          = Some (trigger, argString) ->
        lookup_command st trigger = Some command ->
        IsParent (Info command) = false ->
        let g := GetGuild E (GuildID message) in
        let handler_run :=
          call (Function command)
            (text_context g (Info command)
               (ParseArguments E argString (Arguments_ (Info command)))
               message) in
        (handler_run = Ok () ->
           outcome (commandHandler E S st message)
           = Ok (set_commandsGC st (int_wrap (commandsGC st + 1))))
        /\ (forall v, handler_run = Panic v ->
              outcome (handleCommandError S (ID g) channel (AuthorID message)
                         (Some v)) = Ok () ->
              outcome (commandHandler E S st message) = Ok st))
  /\ (forall n, (- 2 ^ 63 <= n < 2 ^ 63 - 1)%Z -> int_wrap (n + 1) = (n + 1)%Z).
Proof.
  split; [apply gc_guard_false|].
  split; [|split; [|split; [|split]]].
  - unfold commandHandler.
    destruct (match State_Channel S _ with Some c => Some c | None => _ end)
      as [channel_ID|]; [|not_in_trace].
    destruct (decide _); [not_in_trace|].
    destruct (ExtractCommand E _ _) as [[trigger argString]|];
      [|not_in_trace].
    destruct (lookup_command st trigger) as [command|].
    + pose proof (run_command_effect E st argString command message
                    (GetGuild E (GuildID message))) as [Htr _].
      rewrite trace_bind, trace_with_deferred, Htr.
      intros [H|H]%elem_of_app.
      * revert H. destruct (IsTyping (Info command) && _); not_in_trace.
      * destruct (outcome (if IsTyping (Info command) && _ then _ else _));
          [|by apply elem_of_nil in H].
        revert H. apply handleCommandError_no_FreeOSMemory.
    + destruct (IsAdmin E (AuthorID message)); cbn; not_in_trace.
  - intros st'. unfold commandHandler.
    destruct (match State_Channel S _ with Some c => Some c | None => _ end)
      as [channel_ID|]; [|cbn; intros [= <-]; by left].
    destruct (decide _); [cbn; intros [= <-]; by left|].
    destruct (ExtractCommand E _ _) as [[trigger argString]|];
      [|cbn; intros [= <-]; by left].
    destruct (lookup_command st trigger) as [command|].
    + pose proof (run_command_effect E st argString command message
                    (GetGuild E (GuildID message))) as [_ Hst].
      rewrite outcome_bind, outcome_with_deferred.
      destruct (outcome (if IsTyping (Info command) && _ then _ else _));
        [|discriminate].
      destruct (outcome (run_command _ _ _ _ _ _)) as [st''|v].
      * destruct (outcome (handleCommandError _ _ _ _ None));
          [|discriminate].
        intros [= <-]. by apply Hst.
      * destruct (outcome (handleCommandError _ _ _ _ (Some v)));
          [|discriminate].
        intros [= <-]. by left.
    + destruct (IsAdmin E (AuthorID message)); cbn; intros [= <-]; by left.
  - intros argString command g Hleaf handler_run. unfold run_command.
    rewrite Hleaf, gc_guard_false.
    change (call (leaf_invocation E argString command message g).1
              (leaf_invocation E argString command message g).2)
      with handler_run.
    split.
    + intros ->. reflexivity.
    + intros v ->. split; [reflexivity|].
      intros d [a Ha]. unfold with_deferred. cbn. by rewrite Ha.
  - intros channel trigger argString command Hch Hauthor Hex Hcmd Hleaf g
      handler_run.
    pose proof (commandHandler_leaf E S st message channel trigger argString
                  command Hch Hauthor Hex Hcmd Hleaf) as Hout.
    cbv zeta in Hout. fold g in Hout. fold handler_run in Hout.
    split.
    + intros Hrun. by rewrite Hout, Hrun.
    + intros v Hrun Hrec. by rewrite Hout, Hrun, Hrec.
  - intros n Hn. apply int_wrap_in_range. lia.
Qed.

(** ** The statements at the sample inputs *)

Ltac by_computation := apply (bool_decide_unpack _); vm_compute; exact I.

Lemma C2_capital_trigger_never_resolves_witness :
  gostrings.ToLower "Ban" ≠ "Ban"
  /\ lookup_command
       (AddCommand (command_info "Ban" [] None false false "")
          (Some ok_handler) empty_Registry).1
       (gostrings.ToLower "BAN") = None.
Proof.
  assert (gostrings.ToLower "Ban" ≠ "Ban") as Hcap by by_computation.
  split; [exact Hcap|].
  apply (C2_capital_trigger_never_resolves
           (command_info "Ban" [] None false false "") (Some ok_handler) Hcap).
Defined.

Lemma C3_capital_alias_is_overwritten_witness :
  let ban := command_info "ban" ["B"] None false false "" in
  let block := command_info "block" ["B"] None false false "" in
  let st1 := (AddCommand ban (Some ok_handler) empty_Registry).1 in
  let st2 := (AddCommand block (Some ok_handler) st1).1 in
  gostrings.ToLower "B" = "b"
  /\ commandAliases st1 !! "b" = Some "ban"
  /\ commandAliases st2 !! "b" = Some "block".
Proof.
  intros ban block st1 st2. split; [reflexivity|].
  apply (C3_capital_alias_is_overwritten ban block (Some ok_handler)
           (Some ok_handler) empty_Registry "B" keys_lower_empty).
  - apply elem_of_cons. by left.
  - apply elem_of_cons. by left.
  - by_computation.
Defined.

Lemma C8_capital_trigger_collision_witness :
  let first := command_info "Ban" [] None false false "" in
  let second := command_info "Ban" [] None false false "" in
  let st2 :=
    (AddCommand second (Some (panicking_handler (StringValue "second")))
       (AddCommand first (Some ok_handler) empty_Registry).1).1 in
  (Function <$> commands st2 !! "ban")
    = Some (Some (panicking_handler (StringValue "second")))
  /\ lookup_command st2 "ban" = None.
Proof.
  intros first second st2. split; [reflexivity|].
  apply (C8_capital_trigger_collision first second (Some ok_handler)
           (Some (panicking_handler (StringValue "second")))).
  - reflexivity.
  - by_computation.
  - by_computation.
Defined.

Lemma C9_subcommand_struct_reads_first_key_witness :
  (createChatInputSubCmdStruct sample_tags sample_collaborators map_to_list
     config_info (<["set" := set_child]> {[ "status" := bare_child ]})
     = Panic nil_dereference
   \/ createChatInputSubCmdStruct sample_tags sample_collaborators map_to_list
        config_info (<["set" := set_child]> {[ "status" := bare_child ]})
      = Panic index_out_of_range)
  /\ createChatInputSubCmdStruct sample_tags sample_collaborators map_to_list
       config_info (<["set" := set_child]> {[ "roles" := group_child ]})
     = Ok {| discordgo.Name := "config"; discordgo.Description := "";
             discordgo.Options :=
               Some [Some (CreateAppOptSt sample_collaborators set_info);
                     None] |}.
Proof.
  split.
  - apply (C9_subcommand_struct_reads_first_key sample_tags
             sample_collaborators map_to_list config_info
             (<["set" := set_child]> {[ "status" := bare_child ]})
             (reflexivity _)).
    exists "status", bare_child. split; [|reflexivity].
    rewrite lookup_insert_ne by by_computation. apply lookup_singleton_eq.
  - destruct (C9_subcommand_struct_reads_first_key sample_tags
                sample_collaborators map_to_list config_info
                (<["set" := set_child]> {[ "roles" := group_child ]})
                (reflexivity _)) as [_ Hok].
    destruct Hok as [Hres _].
    + intros k v [[_ <-]|[_ [_ <-]%lookup_singleton_Some]]%lookup_insert_Some;
        reflexivity.
    + rewrite Hres. vm_compute. reflexivity.
Defined.

Lemma C6_gc_guard_never_fires_witness :
  let st := one_command "ping" ok_handler in
  let ping := stored_command (command_info "ping" [] None false false "")
                (Some ok_handler) in
  let m := sample_message "!ping" in
  lookup_command st "ping" = Some ping
  /\ IsParent (Info ping) = false
  /\ run_command sample_collaborators st "" ping m sample_guild
     = mret (set_commandsGC st (int_wrap (commandsGC st + 1)))
  /\ outcome (commandHandler sample_collaborators sample_session st m)
     = Ok (set_commandsGC st (int_wrap (commandsGC st + 1)))
  /\ int_wrap (commandsGC st + 1) = 1%Z.
Proof.
  intros st ping m.
  split; [reflexivity|]. split; [reflexivity|].
  destruct (C6_gc_guard_never_fires sample_collaborators sample_session st m)
    as (_ & _ & _ & Hrun & Hhandler & _).
  split; [|split; [|reflexivity]].
  - apply (Hrun "" ping sample_guild eq_refl). reflexivity.
  - apply (Hhandler "c1" "ping" "" ping eq_refl); try reflexivity.
    by_computation.
Defined.

(** C6 as stated fails where a handler panics: the command is no parent,
    it is invoked, the recovery takes the panic, and the counter is where
    it was, not one further. *)
Lemma C6_counter_stays_when_handler_panics :
  let st := one_command "boom" (panicking_handler (RuntimeError "boom")) in
  let r := commandHandler sample_collaborators sample_session st
             (sample_message "!boom") in
  ((IsParent ∘ Info) <$> lookup_command st "boom") = Some false
  /\ commandsGC st = 0%Z
  /\ (commandsGC <$> (match outcome r with Ok st' => Some st' | Panic _ => None end))
     = Some 0%Z
  /\ ~ (exists st', outcome r = Ok st'
                    /\ commandsGC st' = (commandsGC st + 1)%Z).
Proof.
  intros st r.
  split; [reflexivity|]. split; [reflexivity|]. split; [reflexivity|].
  intros (st' & Hst' & Hgc).
  assert (outcome r = Ok st) as Hr by reflexivity.
  rewrite Hr in Hst'. injection Hst' as <-. vm_compute in Hgc. discriminate.
Qed.

Lemma C1_recovery_can_panic_witness :
  assert_runtime_Error (StringValue "boom") = None
  /\ ChannelMessageSend failing_session "c1" "Error!"
     = (None, Some "HTTP 403 Forbidden")
  /\ outcome (with_deferred () (lift (Panic (StringValue "boom")))
                (handleCommandError sample_session "g1" "c1" "u1"))
     = Panic interface_conversion
  /\ outcome (with_deferred () (lift (Panic (StringValue "boom")))
                (handleInteractionError sample_session sample_interaction))
     = Panic interface_conversion
  /\ outcome (with_deferred () (lift (Panic (RuntimeError "index out of range")))
                (handleCommandError failing_session "g1" "c1" "u1"))
     = Panic nil_dereference.
Proof.
  split; [reflexivity|]. split; [reflexivity|].
  destruct (C1_recovery_can_panic sample_session "g1" "c1" "u1"
              sample_interaction (StringValue "boom") "" "")
    as (Hother & _).
  destruct (Hother eq_refl) as (Htext & _ & Hinter & _).
  split; [exact Htext|]. split; [exact Hinter|].
  destruct (C1_recovery_can_panic failing_session "g1" "c1" "u1"
              sample_interaction (StringValue "boom") "index out of range"
              "HTTP 403 Forbidden")
    as (_ & Hsend & _).
  apply Hsend. reflexivity.
Defined.



(** * Further properties of the code *)

(** ** Registration: what the tables hold *)

Section AliasLoopMore.
Variable T : string.
Implicit Types (acc : gmap string string * list Event) (l : list string).

(** Where an entry of the table after the loop comes from. *)
Lemma foldl_add_alias_origin l acc k v :
  (foldl (add_alias T) acc l).1 !! k = Some v ->
  acc.1 !! k = Some v
  \/ (v = T /\ exists a, a ∈ l /\ k = gostrings.ToLower a).
Proof.
  revert acc. induction l as [|b l IH]; intros acc; simpl; [by left|].
  intros H. destruct (IH _ H) as [H' | (-> & a & Ha & ->)].
  - unfold add_alias in H'.
    destruct (acc.1 !! b) eqn:Hb; simpl in H'; [by left|].
    destruct (decide (gostrings.ToLower b = k)) as [<-|Hne].
    + rewrite lookup_insert_eq in H'. injection H' as <-.
      right. split; [done|]. exists b. split; [apply elem_of_cons; by left|done].
    + rewrite lookup_insert_ne in H' by done. by left.
  - right. split; [done|]. exists a. split; [apply elem_of_cons; by right|done].
Qed.

(** The loop leaves alone every key that is the lower-case form of none
    of the aliases. *)
Lemma foldl_add_alias_other l acc k :
  (forall a, a ∈ l -> gostrings.ToLower a ≠ k) ->
  (foldl (add_alias T) acc l).1 !! k = acc.1 !! k.
Proof.
  revert acc. induction l as [|b l IH]; intros acc Hl; simpl; [done|].
  rewrite IH by (intros a Ha; apply Hl, elem_of_cons; by right).
  unfold add_alias. destruct (acc.1 !! b); simpl; [done|].
  apply lookup_insert_ne, Hl, elem_of_cons. by left.
Qed.

(** The log only grows, and an alias that is a key when its turn comes is
    logged. *)
Lemma foldl_add_alias_log_mono l acc e :
  e ∈ acc.2 -> e ∈ (foldl (add_alias T) acc l).2.
Proof.
  revert acc. induction l as [|b l IH]; intros acc He; simpl; [done|].
  apply IH. unfold add_alias. destruct (acc.1 !! b); simpl; [|done].
  apply elem_of_app. by left.
Qed.

Lemma foldl_add_alias_logged l acc a :
  is_Some (acc.1 !! a) -> a ∈ l ->
  alias_conflict a T ∈ (foldl (add_alias T) acc l).2.
Proof.
  revert acc. induction l as [|b l IH]; intros acc Hk Hin; simpl.
  - by apply elem_of_nil in Hin.
  - apply elem_of_cons in Hin as [<-|Hin].
    + apply foldl_add_alias_log_mono. unfold add_alias.
      destruct Hk as [v ->]. simpl. apply elem_of_app. right.
      by apply list_elem_of_singleton.
    + apply IH; [|done]. by apply add_alias_mono.
Qed.

End AliasLoopMore.

Lemma register_all_snoc cs c :
  register_all (cs ++ [c]) = register (register_all cs) c.
Proof. unfold register_all. by rewrite foldl_app. Qed.

Lemma register_all_keys_lower cs :
  keys_lower (commandAliases (register_all cs)).
Proof.
  induction cs as [|c cs IH] using rev_ind; [apply keys_lower_empty|].
  rewrite register_all_snoc. by apply AddCommand_keys_lower.
Qed.

(** Every entry of the alias table was written for a name some registered
    command declares, and names that command's trigger as written. *)
Lemma register_all_alias_origin cs k v :
  commandAliases (register_all cs) !! k = Some v ->
  exists c, c ∈ cs /\ v = Trigger c.1 /\ k ∈ names c.1.
Proof.
  revert k v. induction cs as [|c cs IH] using rev_ind; intros k v.
  - cbn. by rewrite lookup_empty.
  - rewrite register_all_snoc. unfold register.
    rewrite AddCommand_commandAliases.
    intros [H | (-> & a & Ha & ->)]%foldl_add_alias_origin.
    + destruct (IH _ _ H) as (c' & Hc' & Hv & Hk).
      exists c'. split; [apply elem_of_app; by left|done].
    + exists c. split; [apply elem_of_app; right; by apply list_elem_of_singleton|].
      split; [done|]. unfold names. by apply list_elem_of_fmap_2.
Qed.

(** Every entry of the trigger table is a registered command, under its
    lower-cased trigger. *)
Lemma register_all_command_origin cs k cmd :
  commands (register_all cs) !! k = Some cmd ->
  exists c, c ∈ cs /\ cmd = stored_command c.1 c.2
            /\ k = gostrings.ToLower (Trigger c.1).
Proof.
  revert k cmd. induction cs as [|c cs IH] using rev_ind; intros k cmd.
  - cbn. by rewrite lookup_empty.
  - rewrite register_all_snoc. unfold register. rewrite AddCommand_commands.
    destruct (decide (gostrings.ToLower (Trigger c.1) = k)) as [<-|Hne].
    + rewrite lookup_insert_eq. intros [= <-].
      exists c. split; [apply elem_of_app; right; by apply list_elem_of_singleton|done].
    + rewrite lookup_insert_ne by done. intros H.
      destruct (IH _ _ H) as (c' & Hc' & Hcmd & Hk).
      exists c'. split; [apply elem_of_app; by left|done].
Qed.

(** X1. After any sequence of [AddCommand] calls on the empty registry:
    every key of the alias table is in lower case, was declared (as alias
    or trigger, up to case) by a registered command, and maps to that
    command's trigger as it was written; every key of the trigger table is
    the lower-cased trigger of the command stored under it, which is a
    registered command with its trigger appended to its aliases. *)
Theorem X1_registration_tables_invariant
    (cs : list (CommandInfo * option BotFunction)) :
  (forall k v, commandAliases (register_all cs) !! k = Some v ->
     gostrings.ToLower k = k
     /\ exists c, c ∈ cs /\ v = Trigger c.1 /\ k ∈ names c.1)
  /\ (forall k cmd, commands (register_all cs) !! k = Some cmd ->
        k = gostrings.ToLower (Trigger (Info cmd))
        /\ last (Aliases (Info cmd)) = Some (Trigger (Info cmd))
        /\ exists c, c ∈ cs /\ cmd = stored_command c.1 c.2).
Proof.
  split.
  - intros k v H. split.
    + apply (register_all_keys_lower cs). by rewrite H.
    + by apply register_all_alias_origin.
  - intros k cmd H.
    destruct (register_all_command_origin _ _ _ H) as (c & Hc & -> & ->).
    split; [done|]. split; [apply last_snoc|]. by exists c.
Qed.

(** A registration leaves alone every alias entry whose key is the
    lower-case form of none of its names. *)
Lemma AddCommand_alias_other info f st k :
  k ∉ names info ->
  commandAliases (AddCommand info f st).1 !! k = commandAliases st !! k.
Proof.
  intros Hk. rewrite AddCommand_commandAliases.
  apply foldl_add_alias_other. intros a Ha <-.
  apply Hk. unfold names. by apply list_elem_of_fmap_2.
Qed.

Lemma trigger_in_names info :
  gostrings.ToLower (Trigger info) ∈ names info.
Proof.
  unfold names. apply list_elem_of_fmap_2, elem_of_app. right.
  by apply list_elem_of_singleton.
Qed.

(** What the next theorem says, in the form its induction needs: the
    alias entry and the trigger entry of every declared name. *)
Lemma register_all_entries cs :
  Forall (fun c => gostrings.ToLower (Trigger c.1) = Trigger c.1) cs ->
  NoDup (all_names cs) ->
  forall c a, c ∈ cs -> a ∈ Aliases c.1 ++ [Trigger c.1] ->
    commandAliases (register_all cs) !! gostrings.ToLower a
      = Some (Trigger c.1)
    /\ commands (register_all cs) !! Trigger c.1
       = Some (stored_command c.1 c.2).
Proof.
  induction cs as [|x cs IH] using rev_ind; intros Hlow Hnd c a Hc Ha.
  - by apply elem_of_nil in Hc.
  - apply Forall_app in Hlow as [Hlow Hx].
    apply Forall_cons in Hx as [Hx _]. simpl in Hx.
    unfold all_names in Hnd. rewrite bind_app, bind_singleton in Hnd.
    apply NoDup_app in Hnd as (Hnd & Hdisj & _).
    fold (all_names cs) in Hnd, Hdisj.
    rewrite register_all_snoc. unfold register.
    assert (forall c' n, c' ∈ cs -> n ∈ names c'.1 -> n ∉ names x.1) as Hsep.
    { intros c' n Hc' Hn. apply Hdisj. unfold all_names.
      apply list_elem_of_bind. by exists c'. }
    apply elem_of_app in Hc as [Hc|Hc].
    + destruct (IH Hlow Hnd c a Hc Ha) as [Halias Hcmd]. split.
      * rewrite AddCommand_alias_other; [done|].
        apply (Hsep c); [done|]. unfold names. by apply list_elem_of_fmap_2.
      * rewrite AddCommand_commands, lookup_insert_ne; [done|].
        intros Heq. apply (Hsep c (Trigger c.1)); [done| |].
        -- rewrite Forall_forall in Hlow.
           pose proof (trigger_in_names c.1) as Hin.
           by rewrite (Hlow c Hc) in Hin.
        -- rewrite <- Heq. apply trigger_in_names.
    + apply list_elem_of_singleton in Hc as ->.
      destruct (foldl_add_alias_present (Trigger x.1)
                  (Aliases x.1 ++ [Trigger x.1])
                  (commandAliases (register_all cs), []) a
                  (register_all_keys_lower cs) Ha) as [v Hv].
      split.
      * rewrite AddCommand_commandAliases, Hv. f_equal.
        apply foldl_add_alias_origin in Hv as [Hold | [-> _]]; [|done].
        simpl in Hold.
        destruct (register_all_alias_origin _ _ _ Hold) as (c' & Hc' & _ & Hn).
        destruct (Hsep c' _ Hc' Hn). unfold names.
        by apply list_elem_of_fmap_2.
      * rewrite AddCommand_commands, Hx. apply lookup_insert_eq.
Qed.

(** X2. Commands with lower-case triggers whose names (aliases and
    triggers, lower-cased) are all different, registered one after the
    other on the empty registry: every alias of every one of them, however
    it was written, and every trigger resolves through
    [commands[commandAliases[token]]] to the command that declared it. *)
Theorem X2_registrations_resolve
    (cs : list (CommandInfo * option BotFunction))
    (c : CommandInfo * option BotFunction) (a : string) :
  Forall (fun c => gostrings.ToLower (Trigger c.1) = Trigger c.1) cs ->
  NoDup (all_names cs) ->
  c ∈ cs -> a ∈ Aliases c.1 ++ [Trigger c.1] ->
  lookup_command (register_all cs) (gostrings.ToLower a)
  = Some (stored_command c.1 c.2).
Proof.
  intros Hlow Hnd Hc Ha. unfold lookup_command.
  destruct (register_all_entries cs Hlow Hnd c a Hc Ha) as [-> Hcmd].
  exact Hcmd.
Qed.

(** X3. Registering a command leaves the resolution of a token as it was,
    found or not, when the token is the lower-case form of none of the
    new command's names and the new trigger, lower-cased, is not what the
    token's alias entry points to. *)
Theorem X3_registration_leaves_other_tokens
    (info : CommandInfo) (f : option BotFunction) (st : Registry)
    (tok : string) :
  tok ∉ names info ->
  gostrings.ToLower (Trigger info) ≠ default "" (commandAliases st !! tok) ->
  lookup_command (AddCommand info f st).1 tok = lookup_command st tok.
Proof.
  intros Htok Htarget. unfold lookup_command.
  rewrite AddCommand_alias_other by done.
  rewrite AddCommand_commands. by apply lookup_insert_ne.
Qed.

Lemma AddCommand_log info f st :
  (AddCommand info f st).2
  = (foldl (add_alias (Trigger info)) (commandAliases st, [])
       (Aliases info ++ [Trigger info])).2.
Proof. reflexivity. Qed.

(** X4. A command that declares a name which is already a key of the
    alias table, in the spelling of that key, and in no other spelling:
    the entry keeps the trigger it had, the conflict is logged with the
    name and the new trigger, and the command is stored all the same. *)
Theorem X4_alias_conflict_is_logged_and_kept
    (info : CommandInfo) (f : option BotFunction) (st : Registry)
    (a v : string) :
  a ∈ Aliases info ++ [Trigger info] ->
  commandAliases st !! a = Some v ->
  (forall b, b ∈ Aliases info ++ [Trigger info] ->
             gostrings.ToLower b = a -> b = a) ->
  commandAliases (AddCommand info f st).1 !! a = Some v
  /\ alias_conflict a (Trigger info) ∈ (AddCommand info f st).2
  /\ commands (AddCommand info f st).1 !! gostrings.ToLower (Trigger info)
     = Some (stored_command info f).
Proof.
  intros Ha Hv Hspell. split; [|split].
  - by apply AddCommand_lower_alias_kept.
  - rewrite AddCommand_log. apply foldl_add_alias_logged; [|done].
    simpl. by rewrite Hv.
  - rewrite AddCommand_commands. apply lookup_insert_eq.
Qed.

(** X5. What [GetCommands] shows after any sequence of registrations
    depends on the infos alone, not on the functions: it is the table
    built by entering, in registration order, each info with its trigger
    appended to its aliases under its lower-cased trigger, a later entry
    replacing an earlier one under the same key. *)
Theorem X5_GetCommands_snapshot
    (cs : list (CommandInfo * option BotFunction)) :
  GetCommands (register_all cs)
  = foldl (fun m c =>
             <[gostrings.ToLower (Trigger c.1)
               := Info (stored_command c.1 None)]> m) ∅ cs.
Proof.
  induction cs as [|c cs IH] using rev_ind.
  - unfold GetCommands. cbn. apply fmap_empty.
  - rewrite register_all_snoc, foldl_app, <- IH. cbn [foldl].
    unfold GetCommands, register. rewrite AddCommand_commands.
    by rewrite fmap_insert.
Qed.

(** X6. [AddChildCommand] enters the child under the lower-cased parent
    ID and the child's trigger as written, replacing what was there, and
    changes the child table nowhere else; the trigger table and the alias
    table are as before, so the child's trigger resolves as it did. *)
Theorem X6_AddChildCommand_lookup
    (info : CommandInfo) (f : option BotFunction) (st : Registry)
    (parent trigger tok : string) :
  child_lookup (AddChildCommand info f st) parent trigger
  = (if decide (parent = gostrings.ToLower (ParentID info)
                /\ trigger = Trigger info)
     then Some {| Info := info; Function := f |}
     else child_lookup st parent trigger)
  /\ lookup_command (AddChildCommand info f st) tok = lookup_command st tok.
Proof.
  split; [|reflexivity].
  unfold child_lookup. simpl.
  destruct (decide (parent = gostrings.ToLower (ParentID info))) as [->|Hp].
  - rewrite lookup_insert_eq. simpl.
    destruct (decide (trigger = Trigger info)) as [->|Ht].
    + rewrite decide_True by done. apply lookup_insert_eq.
    + rewrite decide_False by (by intros [_ ?]).
      rewrite lookup_insert_ne by done.
      by destruct (childCommands st !! _).
  - rewrite lookup_insert_ne by done.
    by rewrite decide_False by (by intros [? _]).
Qed.

(** ** Schema synthesis: further properties *)

(** X7. [createApplicationCommandStruct] always returns; the schema
    carries the trigger as written and the description; it has no option
    slice exactly when the argument map is nil or empty; otherwise it has
    one option per key, in key order, named by the key and built from the
    descriptor stored under it: description, required flag, the type the
    table chooses, and, when choices are given, one choice per allowed
    value with that value as name and as value. *)
Theorem X7_flat_schema_shape (G : TG.Names) (info : CommandInfo) :
  exists s,
    createApplicationCommandStruct G info = Ok s
    /\ discordgo.Name s = Trigger info
    /\ discordgo.Description s = Description info
    /\ (discordgo.Options s = None <-> no_first_key info = true)
    /\ forall o, Arguments_ info = Some o -> o ≠ [] ->
         exists opts,
           discordgo.Options s = Some opts
           /\ length opts = length o
           /\ forall i k, orderedmap.Keys o !! i = Some k ->
                exists vv opt,
                  orderedmap.Get o k = Some vv
                  /\ opts !! i = Some (Some opt)
                  /\ discordgo.OptName opt = k
                  /\ discordgo.OptDescription opt = ArgDescription vv
                  /\ discordgo.Required opt = ArgRequired vv
                  /\ discordgo.Type_ opt = option_type G (TypeGuard vv)
                  /\ discordgo.Choices opt
                     = match ArgChoices vv with
                       | Some choices =>
                           Some ((fun c : string =>
                                    Some {| discordgo.ChoiceName := c;
                                            discordgo.ChoiceValue := c |})
                                   <$> choices)
                       | None => None
                       end.
Proof.
  destruct (Arguments_ info) as [[|kv o]|] eqn:Ho.
  - eexists. split; [apply createApplicationCommandStruct_no_arguments; by right|].
    unfold no_first_key. rewrite Ho. simpl. repeat split; try done.
    intros o' [= <-] Hne. done.
  - eexists. split; [by apply createApplicationCommandStruct_options|].
    split; [reflexivity|]. split; [reflexivity|]. split.
    { unfold no_first_key. rewrite Ho. split; [done|by destruct kv]. }
    intros o' Heq _. injection Heq as <-. eexists. split; [reflexivity|].
    split; [unfold orderedmap.Keys; by rewrite !length_fmap|].
    intros i k Hi.
    destruct (Get_Keys (kv :: o) k) as [vv Hvv].
    { by apply list_elem_of_lookup_2 in Hi. }
    exists vv, (make_option G k vv). split; [exact Hvv|].
    split.
    { rewrite list_lookup_fmap, Hi.
      change (Some (make_option G k <$> orderedmap.Get (kv :: o) k)
              = Some (Some (make_option G k vv))).
      by rewrite Hvv. }
    repeat split.
  - eexists. split; [apply createApplicationCommandStruct_no_arguments; by left|].
    unfold no_first_key. rewrite Ho. simpl. repeat split; try done.
Qed.

(** X8. With the eight tag constants pairwise distinct, the table gives
    each of them its platform option type; a descriptor tagged subcommand
    or subcommand-group becomes an option of that type. *)
Theorem X8_mapped_tags (G : TG.Names) :
  NoDup (TG.all G) ->
  option_type G (TG.Int G) = discordgo.ApplicationCommandOptionInteger
  /\ option_type G (TG.String G) = discordgo.ApplicationCommandOptionString
  /\ option_type G (TG.Channel G) = discordgo.ApplicationCommandOptionChannel
  /\ option_type G (TG.User G) = discordgo.ApplicationCommandOptionUser
  /\ option_type G (TG.Role G) = discordgo.ApplicationCommandOptionRole
  /\ option_type G (TG.Boolean G) = discordgo.ApplicationCommandOptionBoolean
  /\ option_type G (TG.SubCmd G)
     = discordgo.ApplicationCommandOptionSubCommand
  /\ option_type G (TG.SubCmdGrp G)
     = discordgo.ApplicationCommandOptionSubCommandGroup.
Proof.
  intros Hnd.
  assert (forall tg ty,
            (tg, ty) ∈ [ (TG.Int G, discordgo.ApplicationCommandOptionInteger);
              (TG.String G, discordgo.ApplicationCommandOptionString);
              (TG.Channel G, discordgo.ApplicationCommandOptionChannel);
              (TG.User G, discordgo.ApplicationCommandOptionUser);
              (TG.Role G, discordgo.ApplicationCommandOptionRole);
              (TG.Boolean G, discordgo.ApplicationCommandOptionBoolean);
              (TG.SubCmd G, discordgo.ApplicationCommandOptionSubCommand);
              (TG.SubCmdGrp G,
               discordgo.ApplicationCommandOptionSubCommandGroup) ] ->
            option_type G tg = ty) as Htable.
  { intros tg ty Hin. unfold option_type, applicationCommandTypes.
    erewrite elem_of_list_to_map_1; [reflexivity|exact Hnd|exact Hin]. }
  repeat split; apply Htable;
    repeat (first [apply list_elem_of_here | apply list_elem_of_further]).
Qed.

(** The schema of a parent whose children all have a first key, for a
    given visiting order. *)
Lemma createChatInputSubCmdStruct_returns (G : TG.Names) (E : Collaborators)
    (range_order : gmap string Command -> list (string * Command))
    (info : CommandInfo) (childCmds : gmap string Command) :
  range_order childCmds ≡ₚ map_to_list childCmds ->
  (forall k v, childCmds !! k = Some v -> no_first_key (Info v) = false) ->
  createChatInputSubCmdStruct G E range_order info childCmds
  = Ok {| discordgo.Name := Trigger info;
          discordgo.Description := Description info;
          discordgo.Options :=
            Some (kept_options G E (range_order childCmds)
                  ++ replicate (skipped G (range_order childCmds)) None) |}.
Proof.
  intros Hperm Hall.
  pose proof (kept_skipped_length G E (range_order childCmds)) as Hks.
  assert (length (range_order childCmds) = size childCmds) as Hlen.
  { rewrite Hperm. apply length_map_to_list. }
  unfold createChatInputSubCmdStruct.
  pose proof (fill_children_spec G E (range_order childCmds) []
                (size childCmds)) as H.
  simpl in H. rewrite H.
  - simpl. do 5 f_equal. lia.
  - apply Forall_forall. intros [k v] Hkv. apply (Hall k).
    apply elem_of_map_to_list. by rewrite <- Hperm.
  - lia.
Qed.

(** X9. The order in which the child map is visited decides the order of
    the options and nothing else: for two visiting orders of a child map
    whose children all have a first key, both calls return, the two
    option slices are permutations of each other, and each holds the
    option of every child that is not tagged subcommand-group. *)
Theorem X9_visiting_order_permutes_options
    (G : TG.Names) (E : Collaborators)
    (order1 order2 : gmap string Command -> list (string * Command))
    (info : CommandInfo) (childCmds : gmap string Command) :
  order1 childCmds ≡ₚ map_to_list childCmds ->
  order2 childCmds ≡ₚ map_to_list childCmds ->
  (forall k v, childCmds !! k = Some v -> no_first_key (Info v) = false) ->
  exists opts1 opts2,
    createChatInputSubCmdStruct G E order1 info childCmds
      = Ok {| discordgo.Name := Trigger info;
              discordgo.Description := Description info;
              discordgo.Options := Some opts1 |}
    /\ createChatInputSubCmdStruct G E order2 info childCmds
       = Ok {| discordgo.Name := Trigger info;
               discordgo.Description := Description info;
               discordgo.Options := Some opts2 |}
    /\ opts1 ≡ₚ opts2
    /\ forall k v, childCmds !! k = Some v -> is_group G v = false ->
         Some (CreateAppOptSt E (Info v)) ∈ opts1.
Proof.
  intros H1 H2 Hall. eexists _, _.
  split; [by apply createChatInputSubCmdStruct_returns|].
  split; [by apply createChatInputSubCmdStruct_returns|].
  split.
  - assert (order1 childCmds ≡ₚ order2 childCmds) as H12
      by (by rewrite H1, H2).
    apply Permutation_app.
    + unfold kept_options. apply fmap_Permutation.
      by apply filter_Permutation.
    + unfold skipped.
      rewrite (Permutation_length
                 (filter_Permutation (fun kv => is_group G kv.2 = true)
                    _ _ H12)).
      reflexivity.
  - intros k v Hkv Hg. apply elem_of_app. left. unfold kept_options.
    apply (list_elem_of_fmap_2'
             (fun kv : string * Command => Some (CreateAppOptSt E (Info kv.2)))
             _ (k, v)); [|done].
    apply list_elem_of_filter. split; [done|].
    rewrite H1. by apply elem_of_map_to_list.
Qed.

(** X10. [AddSlashCommand] writes the schema table at the lower-cased
    trigger and nothing else: every other entry of the schema table and
    every other table are as before. The schema stored carries the
    trigger as written for its name. For a command that is not parent and
    child at once the call always returns. *)
Theorem X10_AddSlashCommand_frame (G : TG.Names) (E : Collaborators)
    (range_order : gmap string Command -> list (string * Command))
    (info : CommandInfo) (st : Registry) :
  (IsParent info && IsChild info = false ->
     exists st', AddSlashCommand G E range_order info st = Ok st')
  /\ forall st', AddSlashCommand G E range_order info st = Ok st' ->
       commands st' = commands st
       /\ childCommands st' = childCommands st
       /\ commandAliases st' = commandAliases st
       /\ interactionHandlers st' = interactionHandlers st
       /\ commandsGC st' = commandsGC st
       /\ (forall k, k ≠ gostrings.ToLower (Trigger info) ->
             slashCommands st' !! k = slashCommands st !! k)
       /\ exists s,
            slashCommands st' !! gostrings.ToLower (Trigger info) = Some s
            /\ discordgo.Name s = Trigger info
            /\ discordgo.Description s = Description info.
Proof.
  split.
  - intros Hnot. rewrite AddSlashCommand_branches, Hnot.
    destruct (createApplicationCommandStruct_returns G info) as [s ->].
    by eexists.
  - intros st'. rewrite AddSlashCommand_branches.
    assert (forall r : Result discordgo.ApplicationCommand,
              (forall s, r = Ok s ->
                 discordgo.Name s = Trigger info
                 /\ discordgo.Description s = Description info) ->
              (s ← r; Ok (set_slashCommand st
                            (gostrings.ToLower (Trigger info)) s)) = Ok st' ->
              commands st' = commands st
              /\ childCommands st' = childCommands st
              /\ commandAliases st' = commandAliases st
              /\ interactionHandlers st' = interactionHandlers st
              /\ commandsGC st' = commandsGC st
              /\ (forall k, k ≠ gostrings.ToLower (Trigger info) ->
                    slashCommands st' !! k = slashCommands st !! k)
              /\ exists s,
                   slashCommands st' !! gostrings.ToLower (Trigger info)
                     = Some s
                   /\ discordgo.Name s = Trigger info
                   /\ discordgo.Description s = Description info) as Hset.
    { intros [s|v] Hs; [|discriminate]. intros [= <-].
      repeat (split; [reflexivity|]). split.
      - intros k Hk. simpl. by rewrite lookup_insert_ne.
      - exists s. split; [apply lookup_insert_eq|by apply Hs]. }
    destruct (IsParent info && IsChild info).
    + apply Hset. unfold createChatInputSubCmdStruct.
      intros s. destruct (fill_children _ _ _ _ _); [|discriminate].
      by intros [= <-].
    + apply Hset. intros s Hs.
      destruct (Arguments_ info) as [[|kv o]|] eqn:Ho.
      * rewrite createApplicationCommandStruct_no_arguments in Hs
          by (by right). by injection Hs as <-.
      * rewrite (createApplicationCommandStruct_options G info (kv :: o))
          in Hs by done. by injection Hs as <-.
      * rewrite createApplicationCommandStruct_no_arguments in Hs
          by (by left). by injection Hs as <-.
Qed.

(** ** The text path: further properties *)

(** X11. [commandHandler] does nothing at all (no outbound call, no log
    line, no handler run, the registry as it was) for a message whose
    channel cannot be resolved, for a message written by the bot itself,
    whatever its content, and for a message in which [ExtractCommand]
    finds no trigger. *)
Theorem X11_commandHandler_ignores (E : Collaborators) (S : Session)
    (st : Registry) (message : Message) :
  (State_Channel S (ChannelID message) = None
   /\ Channel S (ChannelID message) = None)
  \/ AuthorID message = State_User_ID S
  \/ ExtractCommand E (GetGuild E (GuildID message)) (Content message) = None ->
  commandHandler E S st message = mret st.
Proof.
  unfold commandHandler. intros [[-> ->] | [Hbot | Hnone]]; [done| |].
  - destruct (match State_Channel S _ with Some c => Some c | None => _ end);
      [|done].
    by rewrite decide_True.
  - destruct (match State_Channel S _ with Some c => Some c | None => _ end);
      [|done].
    destruct (decide _); [done|]. by rewrite Hnone.
Qed.

(** X12. A trigger that resolves to no command: [commandHandler] logs it,
    tells the author with a reaction and a reply only when the author is a
    bot admin, runs no handler and no recovery, and leaves the registry
    as it was. *)
Theorem X12_command_not_found (E : Collaborators) (S : Session)
    (st : Registry) (message : Message) (channel trigger argString : string) :
  match State_Channel S (ChannelID message) with
  | Some c => Some c
  | None => Channel S (ChannelID message)
  end = Some channel ->
  AuthorID message ≠ State_User_ID S ->
  ExtractCommand E (GetGuild E (GuildID message)) (Content message)
    = Some (trigger, argString) ->
  lookup_command st trigger = None ->
  outcome (commandHandler E S st message) = Ok st
  /\ trace (commandHandler E S st message)
     = EvLog "error" "Command was not found" [] ::
       if IsAdmin E (AuthorID message) then
         [EvMessageReactionAdd (ChannelID message) (MessageID message)
            "<:redtick:861413502991073281>";
          EvChannelMessageSendReply (ChannelID message)
            "<:redtick:861413502991073281> Error! Command not found!"]
       else [].
Proof.
  intros Hch Hauthor Hex Hnone. unfold commandHandler.
  rewrite Hch, decide_False by done. cbv zeta. rewrite Hex, Hnone.
  by destruct (IsAdmin E (AuthorID message)).
Qed.

Lemma handleCommandError_no_typing (S : Session)
    (gID cId uId c : string) (r : option PanicValue) :
  EvChannelTyping c ∉ trace (handleCommandError S gID cId uId r).
Proof.
  unfold handleCommandError. destruct r as [r|]; cbn; [|not_in_trace].
  destruct (assert_runtime_Error r); cbn; [|not_in_trace].
  destruct (ChannelMessageSend S cId "Error!") as [[m|] [e|]]; cbn;
    not_in_trace.
Qed.

(** The trace and the outcome of [commandHandler] for a message that
    reaches a command. *)
Lemma commandHandler_found (E : Collaborators) (S : Session) (st : Registry)
    (message : Message) (channel trigger argString : string)
    (command : Command) :
  match State_Channel S (ChannelID message) with
  | Some c => Some c
  | None => Channel S (ChannelID message)
  end = Some channel ->
  AuthorID message ≠ State_User_ID S ->
  ExtractCommand E (GetGuild E (GuildID message)) (Content message)
    = Some (trigger, argString) ->
  lookup_command st trigger = Some command ->
  let g := GetGuild E (GuildID message) in
  let body := run_command E st argString command message g in
  let recovery :=
    handleCommandError S (ID g) channel (AuthorID message)
      match outcome body with Ok _ => None | Panic v => Some v end in
  trace (commandHandler E S st message)
  = (if IsTyping (Info command) && bool_decide (ResponseChannelID g = "")
     then [EvChannelTyping (ChannelID message)] else [])
    ++ trace recovery
  /\ outcome (commandHandler E S st message)
     = match outcome body, outcome recovery with
       | _, Panic w => Panic w
       | Ok st', Ok _ => Ok st'
       | Panic _, Ok _ => Ok st
       end.
Proof.
  intros Hch Hauthor Hex Hcmd g body recovery. subst recovery body g.
  unfold commandHandler.
  rewrite Hch, decide_False by done. cbv zeta. rewrite Hex, Hcmd.
  rewrite trace_bind, outcome_bind, trace_with_deferred,
    outcome_with_deferred.
  destruct (run_command_effect E st argString command message
              (GetGuild E (GuildID message))) as [-> _].
  destruct (IsTyping (Info command) && _); cbn;
    destruct (outcome (run_command _ _ _ _ _ _)); cbn; try done;
    by destruct (outcome (handleCommandError _ _ _ _ _)).
Qed.

(** X13. For a message that reaches a command, the typing indicator is
    sent exactly when the command asks for it and the guild has no
    response channel; when it is sent, it is the first thing that
    happens. *)
Theorem X13_typing_indicator (E : Collaborators) (S : Session)
    (st : Registry) (message : Message) (channel trigger argString : string)
    (command : Command) :
  match State_Channel S (ChannelID message) with
  | Some c => Some c
  | None => Channel S (ChannelID message)
  end = Some channel ->
  AuthorID message ≠ State_User_ID S ->
  ExtractCommand E (GetGuild E (GuildID message)) (Content message)
    = Some (trigger, argString) ->
  lookup_command st trigger = Some command ->
  let asked :=
    IsTyping (Info command)
    && bool_decide (ResponseChannelID (GetGuild E (GuildID message)) = "") in
  (EvChannelTyping (ChannelID message) ∈ trace (commandHandler E S st message)
   <-> asked = true)
  /\ (asked = true ->
      head (trace (commandHandler E S st message))
      = Some (EvChannelTyping (ChannelID message))).
Proof.
  intros Hch Hauthor Hex Hcmd asked.
  destruct (commandHandler_found E S st message channel trigger argString
              command Hch Hauthor Hex Hcmd) as [Htr _].
  cbv zeta in Htr. fold asked in Htr. rewrite Htr. split.
  - destruct asked; simpl.
    + split; [done|]. intros _. apply elem_of_cons. by left.
    + split; [|done]. intros H. by apply handleCommandError_no_typing in H.
  - by intros ->.
Qed.

(** X14. The invocation of a parent command never moves the GC counter:
    whichever handler runs, the parent's or a child's, and whether it
    returns or panics, a call of [commandHandler] that returns leaves the
    registry exactly as it was. *)
Theorem X14_parent_invocation_does_not_count (E : Collaborators)
    (S : Session) (st st' : Registry) (message : Message)
    (channel trigger argString : string) (command : Command) :
  match State_Channel S (ChannelID message) with
  | Some c => Some c
  | None => Channel S (ChannelID message)
  end = Some channel ->
  AuthorID message ≠ State_User_ID S ->
  ExtractCommand E (GetGuild E (GuildID message)) (Content message)
    = Some (trigger, argString) ->
  lookup_command st trigger = Some command ->
  IsParent (Info command) = true ->
  outcome (commandHandler E S st message) = Ok st' ->
  st' = st.
Proof.
  intros Hch Hauthor Hex Hcmd Hparent.
  destruct (commandHandler_found E S st message channel trigger argString
              command Hch Hauthor Hex Hcmd) as [_ ->].
  cbv zeta. unfold run_command. rewrite Hparent.
  generalize (handleCommandError S (ID (GetGuild E (GuildID message)))
                channel (AuthorID message)).
  intros d. destruct (handleChildCommand _ _ _ _ _ _) as [[]|v]; cbn.
  - destruct (outcome (d None)); congruence.
  - destruct (outcome (d (Some v))); congruence.
Qed.

(** X15. When the handler a message reaches returns, the recovery stays
    out of it: [commandHandler] returns, and apart from the typing
    indicator it sends nothing, logs nothing and reports nothing. *)
Theorem X15_normal_return_is_silent (E : Collaborators) (S : Session)
    (st st' : Registry) (message : Message)
    (channel trigger argString : string) (command : Command) :
  match State_Channel S (ChannelID message) with
  | Some c => Some c
  | None => Channel S (ChannelID message)
  end = Some channel ->
  AuthorID message ≠ State_User_ID S ->
  ExtractCommand E (GetGuild E (GuildID message)) (Content message)
    = Some (trigger, argString) ->
  lookup_command st trigger = Some command ->
  outcome (run_command E st argString command message
             (GetGuild E (GuildID message))) = Ok st' ->
  outcome (commandHandler E S st message) = Ok st'
  /\ trace (commandHandler E S st message)
     = if IsTyping (Info command)
          && bool_decide (ResponseChannelID (GetGuild E (GuildID message)) = "")
       then [EvChannelTyping (ChannelID message)] else [].
Proof.
  intros Hch Hauthor Hex Hcmd Hret.
  destruct (commandHandler_found E S st message channel trigger argString
              command Hch Hauthor Hex Hcmd) as [-> ->].
  cbv zeta. rewrite Hret. cbn. split; [done|]. apply app_nil_r.
Qed.

(** ** The interaction path: further properties *)

(** X16. An interaction of the application-command type goes to
    [handleInteractionCommand]. It names a command by its trigger as
    written, as its schema does, and the trigger table is read with that
    name. When
    the trigger is in lower case, the command just registered is the one
    found. The invoker is read first, as [i.Member.User.ID]: an
    interaction without a member, as one sent in a direct message, makes
    that read panic before the recovery is deferred, and the panic leaves
    the function. Otherwise an invoker who is bot admin or moderator, or
    any invoker when the command is public, has the function run under the
    deferred recovery, with the arguments flattened from the interaction's
    options and a message of empty content standing for the interaction;
    any other invoker gets nothing. When the trigger has a capital letter,
    registering the command does not make the name known: the entry under
    the name is what it was. *)
Theorem X16_registered_command_by_interaction (E : Collaborators)
    (S : Session) (st : Registry) (info : CommandInfo)
    (f : option BotFunction) (i : Interaction) :
  IType i = InteractionApplicationCommand ->
  IName i = Trigger info ->
  let st' := (AddCommand info f st).1 in
  let command := stored_command info f in
  (gostrings.ToLower (Trigger info) = Trigger info ->
     handleInteraction E S st' i
     = match Member_User_ID i with
       | Panic v => throw v
       | Ok uid =>
           if authorised E command i uid then
             with_deferred ()
               (lift (call f
                  {| CtxGuild := GetGuild E (IGuildID i); Cmd := Info command;
                     Args := Some (ParseInteractionArgs (IOptions i));
                     CtxMessage :=
                       Some {| MessageID := ""; ChannelID := IChannelID i;
                               GuildID := IGuildID i;
                               AuthorID := uid; Content := "" |};
                     CtxInteraction := Some i |}))
               (handleInteractionError S i)
           else mret ()
       end)
  /\ (gostrings.ToLower (Trigger info) ≠ Trigger info ->
      commands st' !! IName i = commands st !! IName i).
Proof.
  intros Htype Hname st' command. split.
  - intros Hlow. unfold handleInteraction. rewrite Htype.
    unfold handleInteractionCommand, authorised.
    subst st'. rewrite AddCommand_commands, Hname, Hlow, lookup_insert_eq.
    reflexivity.
  - intros Hcap. subst st'.
    rewrite AddCommand_commands, Hname. by apply lookup_insert_ne.
Qed.

(** X17. For an interaction of the application-command type the trigger
    table is read with the interaction's name as it is, without the alias
    table. For a name it does not hold, the command is
    the zero value, which is not public. An interaction without a member
    panics with a nil dereference that nothing recovers; a bot admin or
    moderator gets the recovery run on the nil-dereference panic of the
    nil function; any other member gets nothing. *)
Theorem X17_unknown_interaction_name (E : Collaborators) (S : Session)
    (st : Registry) (i : Interaction) :
  IType i = InteractionApplicationCommand ->
  commands st !! IName i = None ->
  handleInteraction E S st i
  = match Member_User_ID i with
    | Panic _ => throw nil_dereference
    | Ok uid =>
        if IsAdmin E uid || IsMod E (GetGuild E (IGuildID i)) uid
        then handleInteractionError S i (Some nil_dereference)
        else mret ()
    end.
Proof.
  intros Htype Hnone. unfold handleInteraction. rewrite Htype.
  unfold handleInteractionCommand. rewrite Hnone.
  destruct (Member_User_ID i) as [uid|v] eqn:Hmember.
  - cbn -[handleInteractionError with_deferred]. rewrite orb_false_r.
    destruct (IsAdmin E _ || IsMod E _ _); [|done].
    apply with_deferred_panic.
  - by rewrite (Member_User_ID_panic i v Hmember).
Qed.

Lemma parse_option_flatten_bounded (n : nat) :
  forall v args, option_size v <= n ->
    parse_option v args = foldl enter_arg args (flatten_option v).
Proof.
  induction n as [|n IH]; intros [name value options] args Hsz.
  - simpl in Hsz. lia.
  - simpl in Hsz. simpl. destruct options as [options|]; [|reflexivity].
    remember (enter_arg args (name, value)) as m eqn:Hm.
    unfold enter_arg, parsed_arg in Hm. simpl in Hm. rewrite <- Hm.
    clear Hm args. revert m.
    assert ((fix each (l : list InteractionDataOption) : nat :=
               match l with
               | [] => 0
               | v :: l => option_size v + each l
               end) options <= n) as Hn by lia.
    clear Hsz. induction options as [|v options IHo]; intros args.
    + reflexivity.
    + rewrite foldl_app, <- IH by lia. apply IHo. lia.
Qed.

Lemma parse_option_flatten v args :
  parse_option v args = foldl enter_arg args (flatten_option v).
Proof. by apply (parse_option_flatten_bounded (option_size v)). Qed.

Lemma ParseInteractionArgsR_flatten options args :
  ParseInteractionArgsR options args
  = foldl enter_arg args (flatten_options options).
Proof.
  unfold ParseInteractionArgsR, flatten_options.
  revert args. induction options as [|v options IH]; intros args.
  - reflexivity.
  - rewrite bind_cons, foldl_app. simpl.
    by rewrite IH, parse_option_flatten.
Qed.

Lemma foldl_enter_arg_other l args name :
  name ∉ l.*1 -> foldl enter_arg args l !! name = args !! name.
Proof.
  revert args. induction l as [|[n v] l IH]; intros args Hn; [done|].
  simpl in *. apply not_elem_of_cons in Hn as [Hne Hn].
  rewrite IH by done. unfold enter_arg. simpl. by rewrite lookup_insert_ne.
Qed.

Lemma foldl_enter_arg_dom l args name :
  is_Some (foldl enter_arg args l !! name)
  <-> is_Some (args !! name) \/ name ∈ l.*1.
Proof.
  revert args. induction l as [|[n v] l IH]; intros args; simpl.
  - split; [by left|]. intros [?|H]; [done|by apply elem_of_nil in H].
  - rewrite IH. unfold enter_arg. simpl.
    destruct (decide (n = name)) as [->|Hne].
    + rewrite lookup_insert_eq. split; [intros _; right; by left|by left; eexists].
    + rewrite lookup_insert_ne by done. rewrite elem_of_cons.
      split; [intros [?|?]; [by left|right; by right]|].
      intros [?|[?|?]]; [by left|congruence|by right].
Qed.

(** The last pair entered under a name decides its entry. *)
Lemma foldl_enter_arg_last l1 l2 args name value :
  name ∉ l2.*1 ->
  foldl enter_arg args (l1 ++ (name, value) :: l2) !! name
  = Some (parsed_arg value).
Proof.
  intros Hn. rewrite foldl_app. simpl.
  rewrite foldl_enter_arg_other by done.
  unfold enter_arg. simpl. apply lookup_insert_eq.
Qed.

(** X18. [ParseInteractionArgs] flattens: the map it returns is the one
    obtained by entering, one after the other, every option of the tree
    with its value, each option before the options nested in it. So a
    name has an entry exactly when some option at some depth bears it,
    and the entry holds the value of the last such option in that order;
    an empty option list gives the empty map. *)
Theorem X18_ParseInteractionArgs_flattens
    (options : list InteractionDataOption) :
  ParseInteractionArgs options = foldl enter_arg ∅ (flatten_options options)
  /\ (forall name, is_Some (ParseInteractionArgs options !! name)
                   <-> name ∈ (flatten_options options).*1)
  /\ (forall before after name value,
        flatten_options options = before ++ (name, value) :: after ->
        name ∉ after.*1 ->
        ParseInteractionArgs options !! name = Some (parsed_arg value))
  /\ ParseInteractionArgs [] = ∅.
Proof.
  assert (ParseInteractionArgs options
          = foldl enter_arg ∅ (flatten_options options)) as Hflat
    by apply ParseInteractionArgsR_flatten.
  split; [exact Hflat|]. split; [|split; [|reflexivity]].
  - intros name. rewrite Hflat, foldl_enter_arg_dom, lookup_empty.
    split; [intros [[? ?]|?]; done|by right].
  - intros before after name value Heq Hlast.
    rewrite Hflat, Heq. by apply foldl_enter_arg_last.
Qed.

(** X19. Component handlers are stored under the lower-cased ID and
    looked up under the CustomID as it comes. A component whose CustomID
    is the lower-cased ID reaches the handler just registered: its
    function is run under the deferred recovery, with the info it was
    registered with, and when it returns nothing else happens. A handler
    registered under an ID with a capital letter is not reached by a
    component carrying that very ID: over a table that has no such key
    the call goes the way of a missing handler, the recovery run on the
    nil-dereference panic. *)
Theorem X19_component_handler_lookup (S : Session) (st : Registry)
    (info : InteractionInfo) (f : option InteractionFunc) (i : Interaction) :
  let st' := AddInteractHandler info f st in
  let ctx := {| InteractionCreate := i; CtxInfo := info |} in
  (ICustomID i = gostrings.ToLower (Id info) ->
     handleMessageComponents S st' i
     = with_deferred () (lift (call f ctx)) (handleInteractionError S i)
     /\ (call f ctx = Ok () -> handleMessageComponents S st' i = mret ()))
  /\ (ICustomID i = Id info ->
      gostrings.ToLower (Id info) ≠ Id info ->
      interactionHandlers st !! Id info = None ->
      handleMessageComponents S st' i
      = handleInteractionError S i (Some nil_dereference)).
Proof.
  intros st' ctx. split.
  - intros Hid.
    assert (handleMessageComponents S st' i
            = with_deferred () (lift (call f ctx))
                (handleInteractionError S i)) as Hrun.
    { unfold handleMessageComponents. subst st'. simpl interactionHandlers.
      rewrite Hid, lookup_insert_eq.
      rewrite bool_decide_eq_true_2 by (by eexists). simpl default.
      unfold with_deferred. simpl.
      by destruct (call f _) as [[]|v]. }
    split; [exact Hrun|]. intros Hret. rewrite Hrun, Hret. reflexivity.
  - intros Hid Hcap Hfree. unfold handleMessageComponents.
    subst st'. simpl interactionHandlers.
    rewrite Hid, lookup_insert_ne, Hfree by done.
    rewrite bool_decide_eq_false_2 by (by intros [? ?]).
    rewrite handleInteractionError_no_panic. simpl default.
    change (call (HFunction zero_InteractionHandler) _)
      with (@Panic unit nil_dereference).
    rewrite with_deferred_panic.
    destruct (handleInteractionError S i (Some nil_dereference))
      as [tr [[]|w]]; reflexivity.
Qed.

(** ** The recovery functions: when they end well *)

(** X20. [handleCommandError] ends without a panic of its own in two
    cases only: there was nothing to recover, or the recovered value is a
    runtime error and the send of the notice gave back a message. In the
    second case it does, in this order: two log lines, the error report,
    the notice ["Error!"], a log line if the send reported an error all
    the same, a pause of five seconds, the deletion of the notice. *)
Theorem X20_handleCommandError_ends_well (S : Session)
    (gID cId uId : string) (r : option PanicValue) :
  (outcome (handleCommandError S gID cId uId r) = Ok ()
   <-> r = None
       \/ exists msg m, r = Some (RuntimeError msg)
                        /\ (ChannelMessageSend S cId "Error!").1 = Some m)
  /\ forall msg m err,
       r = Some (RuntimeError msg) ->
       ChannelMessageSend S cId "Error!" = (Some m, err) ->
       trace (handleCommandError S gID cId uId r)
       = [EvLog "warning" "Recovering from panic: %s" [msg];
          EvLog "warning" "Sending Error report to admins" [];
          EvSendErrorReport gID cId uId "Error!" msg;
          EvChannelMessageSend cId "Error!"]
         ++ match err with
            | Some err => [EvLog "error" "err sending message %s" [err]]
            | None => []
            end
         ++ [EvSleep 5; EvChannelMessageDelete cId (MessageID m)].
Proof.
  split.
  - unfold handleCommandError. destruct r as [[msg|msg|s]|]; cbn.
    + destruct (ChannelMessageSend S cId "Error!") as [[m|] [e|]]; cbn;
        (split; [intros H; try discriminate H; right; by exists msg, m
                |intros [?|(? & ? & ? & ?)]; by simplify_eq]).
    + split; [discriminate|]. intros [?|(? & ? & ? & ?)]; by simplify_eq.
    + split; [discriminate|]. intros [?|(? & ? & ? & ?)]; by simplify_eq.
    + split; [by left|done].
  - intros msg m err -> Hsend. unfold handleCommandError. cbn.
    rewrite Hsend. by destruct err.
Qed.

(** X21. [handleInteractionError] ends without a panic of its own in two
    cases only: there was nothing to recover, or the recovered value is a
    runtime error, the interaction has a member with a user, the edit of
    the response gave back a message, and either the edit reported no
    error or the fallback response reported one. The fallback response,
    ephemeral (flag 64), is sent exactly when a runtime error was
    recovered, the interaction has a member with a user, and the edit
    reported an error. The function never pauses: the notice is deleted
    right after it is posted. *)
Theorem X21_handleInteractionError_ends_well (S : Session)
    (i : Interaction) (r : option PanicValue) :
  let edit := InteractionResponseEdit S i "error executing command" in
  (outcome (handleInteractionError S i r) = Ok ()
   <-> r = None
       \/ exists msg uid m,
            r = Some (RuntimeError msg) /\ Member_User_ID i = Ok uid
            /\ edit.1 = Some m
            /\ (edit.2 = None
                \/ is_Some (InteractionRespond S i "error executing command")))
  /\ (EvInteractionRespond 64 "error executing command"
        ∈ trace (handleInteractionError S i r)
      <-> (exists msg, r = Some (RuntimeError msg))
          /\ (exists uid, Member_User_ID i = Ok uid)
          /\ is_Some edit.2)
  /\ forall n, EvSleep n ∉ trace (handleInteractionError S i r).
Proof.
  intros edit. subst edit. unfold handleInteractionError.
  destruct r as [r|]; cbn.
  2:{ split; [|split].
      - split; [by left|done].
      - split; [intros H; by apply elem_of_nil in H|by intros [[? ?] _]].
      - intros n. not_in_trace. }
  destruct (Member_User_ID i) as [uid|v]; cbn.
  2:{ split; [|split].
      - split; [discriminate|].
        intros [?|(? & ? & ? & ? & ? & ?)]; by simplify_eq.
      - split; [intros H; exfalso; revert H; not_in_trace
               |by intros (_ & [? ?] & _)].
      - intros n. not_in_trace. }
  destruct r as [msg|msg|s]; cbn.
  - destruct (InteractionResponseEdit S i "error executing command")
      as [[m|] [e|]]; cbn;
      destruct (InteractionRespond S i "error executing command") as [e'|];
      cbn;
      try destruct (ChannelMessageDelete S (IChannelID i) (MessageID m));
      cbn;
      (split;
       [split;
        [intros H; try discriminate H; right; exists msg, uid, m;
         repeat split; auto
        |intros [?|(? & ? & ? & ? & ? & ? & [?|[? ?]])]; by simplify_eq]
       |split;
        [split;
         [intros H; split; [by exists msg|]; split; [by exists uid|];
          first [by eexists
                |exfalso; revert H; not_in_trace]
         |intros (_ & _ & [? ?]); simplify_eq; set_solver]
        |intros n; not_in_trace]]).
  - split; [|split].
    + split; [discriminate|].
      intros [?|(? & ? & ? & ? & ?)]; by simplify_eq.
    + split; [intros H; exfalso; revert H; not_in_trace
             |by intros [[? ?] _]].
    + intros n. not_in_trace.
  - split; [|split].
    + split; [discriminate|].
      intros [?|(? & ? & ? & ? & ?)]; by simplify_eq.
    + split; [intros H; exfalso; revert H; not_in_trace
             |by intros [[? ?] _]].
    + intros n. not_in_trace.
Qed.

(** ** Publishing and removing schemas *)

Section SyncFacts.
Variable A : CommandAPI.
Variable appID : string.
Variable range_slash : gmap string discordgo.ApplicationCommand
                       -> list (string * discordgo.ApplicationCommand).

Lemma overwrites_app tr1 tr2 :
  overwrites (tr1 ++ tr2) = overwrites tr1 ++ overwrites tr2.
Proof. apply omap_app. Qed.

(** The loop over the guilds goes through them as long as the overwrite
    succeeds. *)
Lemma overwrite_guilds_all_succeed cmds guilds :
  (forall g, g ∈ guilds ->
     (ApplicationCommandBulkOverwrite A appID g.2 cmds).2 = None) ->
  overwrites (overwrite_guilds A appID cmds guilds)
  = (fun g => (g.2, cmds)) <$> guilds.
Proof.
  induction guilds as [|g guilds IH]; intros Hok; [done|].
  simpl. pose proof (Hok g ltac:(apply elem_of_cons; by left)) as Hg.
  destruct (ApplicationCommandBulkOverwrite A appID g.2 cmds) as [upd err].
  simpl in Hg. subst err. cbn [overwrites omap].
  change (omap _ ?l) with (overwrites l). rewrite overwrites_app.
  rewrite IH by (intros g' Hg'; apply Hok, elem_of_cons; by right).
  by destruct upd.
Qed.

Lemma overwrite_guilds_stop cmds pre g post err :
  (forall p, p ∈ pre ->
     (ApplicationCommandBulkOverwrite A appID p.2 cmds).2 = None) ->
  (ApplicationCommandBulkOverwrite A appID g.2 cmds).2 = Some err ->
  overwrites (overwrite_guilds A appID cmds (pre ++ g :: post))
  = (fun g => (g.2, cmds)) <$> (pre ++ [g]).
Proof.
  induction pre as [|p pre IH]; intros Hok Hfail.
  - simpl.
    destruct (ApplicationCommandBulkOverwrite A appID g.2 cmds) as [upd e].
    simpl in Hfail. by subst e.
  - simpl. pose proof (Hok p ltac:(apply elem_of_cons; by left)) as Hp.
    destruct (ApplicationCommandBulkOverwrite A appID p.2 cmds) as [upd e].
    simpl in Hp. subst e. cbn [overwrites omap].
    change (omap _ ?l) with (overwrites l). rewrite overwrites_app.
    rewrite IH; [|intros p' Hp'; apply Hok, elem_of_cons; by right|done].
    by destruct upd.
Qed.

(** X22. What [RegisterSlashCommands] pushes, when [internal.Filter]
    keeps exactly the items its test accepts: the platform's current
    commands that are not chat-input commands, and every stored schema,
    as a command without ID and with the zero type; no current chat-input
    command is pushed, so the chat-input commands are replaced wholesale
    by the stored ones. *)
Theorem X22_commands_pushed (st : Registry)
    (currentCommands : list PlatformCommand) (x : PlatformCommand) :
  (forall p l y, y ∈ Filter A p l <-> y ∈ l /\ p y = true) ->
  range_slash (slashCommands st) ≡ₚ map_to_list (slashCommands st) ->
  (x ∈ commands_to_push A range_slash st currentCommands
   <-> (x ∈ currentCommands /\ CmdType x ≠ ChatApplicationCommand)
       \/ exists k s, slashCommands st !! k = Some s /\ x = of_schema s)
  /\ length (commands_to_push A range_slash st currentCommands)
     = length (Filter A (fun item =>
                 bool_decide (CmdType item ≠ ChatApplicationCommand))
               currentCommands)
       + size (slashCommands st).
Proof.
  intros HFilter Hperm. unfold commands_to_push. split.
  - rewrite elem_of_app, HFilter, bool_decide_eq_true.
    rewrite list_elem_of_fmap.
    split; intros [H|H]; [by left| |by left|].
    + right. destruct H as (s & -> & Hs).
      apply list_elem_of_fmap in Hs as ([k s'] & -> & Hks).
      exists k, s'. split; [|done].
      apply elem_of_map_to_list. by rewrite <- Hperm.
    + right. destruct H as (k & s & Hks & ->). exists s. split; [done|].
      apply list_elem_of_fmap. exists (k, s). split; [done|].
      rewrite Hperm. by apply elem_of_map_to_list.
  - rewrite length_app, !length_fmap, Hperm. by rewrite length_map_to_list.
Qed.

(** X23. Outside the development environment [RegisterSlashCommands]
    makes exactly one bulk overwrite, the global one, with the list above
    built from whatever the fetch of the current commands returned: also
    when that fetch failed, and whether or not the overwrite fails. *)
Theorem X23_one_global_overwrite (st : Registry) :
  IsDevEnv A = false ->
  overwrites (RegisterSlashCommands A appID range_slash st)
  = [("", commands_to_push A range_slash st
            (ApplicationCommands A appID "").1)].
Proof.
  intros Hdev. unfold RegisterSlashCommands. rewrite Hdev.
  destruct (ApplicationCommands A appID "") as [current err].
  rewrite bool_decide_eq_true_2 by lia. simpl.
  destruct err; simpl;
    by destruct (ApplicationCommandBulkOverwrite A appID "" _) as [? [?|]].
Qed.

(** X24. In the development environment [RegisterSlashCommands] overwrites
    the commands guild by guild, in the order of the session state, each
    with the same list, and stops at the first guild whose overwrite
    fails: the guilds after it are not touched. When no overwrite fails,
    every guild is overwritten once. *)
Theorem X24_guild_overwrites_stop_at_failure (st : Registry) :
  IsDevEnv A = true ->
  let cmds :=
    commands_to_push A range_slash st (ApplicationCommands A appID "").1 in
  (forall pre g post err,
     State_Guilds A = pre ++ g :: post ->
     (forall p, p ∈ pre ->
        (ApplicationCommandBulkOverwrite A appID p.2 cmds).2 = None) ->
     (ApplicationCommandBulkOverwrite A appID g.2 cmds).2 = Some err ->
     overwrites (RegisterSlashCommands A appID range_slash st)
     = (fun g => (g.2, cmds)) <$> (pre ++ [g]))
  /\ ((forall g, g ∈ State_Guilds A ->
         (ApplicationCommandBulkOverwrite A appID g.2 cmds).2 = None) ->
      overwrites (RegisterSlashCommands A appID range_slash st)
      = (fun g => (g.2, cmds)) <$> State_Guilds A).
Proof.
  intros Hdev cmds.
  assert (overwrites (RegisterSlashCommands A appID range_slash st)
          = overwrites (overwrite_guilds A appID cmds (State_Guilds A)))
    as Hrun.
  { unfold RegisterSlashCommands. subst cmds. rewrite Hdev.
    destruct (ApplicationCommands A appID "") as [current err].
    rewrite bool_decide_eq_true_2 by lia. simpl. by destruct err. }
  rewrite Hrun. split.
  - intros pre g post err -> Hok Hfail. by eapply overwrite_guilds_stop.
  - apply overwrite_guilds_all_succeed.
Qed.

(** X25. [DeleteGuildApplicationCommands] asks for the deletion of every
    command the fetch returned, once each and in the order of the fetch,
    whether or not deletions fail on the way; when the fetch itself
    fails it logs that and deletes nothing. *)
Theorem X25_delete_goes_through_all (guildID : string) :
  let fetched := ApplicationCommands A appID guildID in
  (fetched.2 = None ->
     deletes (DeleteGuildApplicationCommands A appID guildID)
     = CmdID <$> fetched.1)
  /\ (forall err, fetched.2 = Some err ->
        DeleteGuildApplicationCommands A appID guildID
        = [SyApplicationCommands guildID;
           SyLog "error" "Error getting all slash commands %s" [err]]).
Proof.
  intros fetched. subst fetched. unfold DeleteGuildApplicationCommands.
  destruct (ApplicationCommands A appID guildID) as [cmds err]. simpl.
  split.
  - intros ->. unfold deletes. cbn [omap list_omap].
    induction cmds as [|k cmds IH]; [done|].
    cbn [flat_map]. rewrite omap_app, IH.
    by destruct (ApplicationCommandDelete A appID guildID (CmdID k)).
  - by intros e ->.
Qed.

End SyncFacts.

(** ** Two more compositions *)

(** X26. A handler that panics with a runtime error, on a gateway whose
    send of the notice gives back a message: [commandHandler] returns, the
    registry is as it was, and what happened is, after the typing
    indicator if it was asked for, exactly one recovery: two log lines,
    one error report naming guild, channel, author and the error, one
    notice ["Error!"] in the channel of the message, a log line if the
    send reported an error, five seconds of pause, and the deletion of
    that notice. *)
Theorem X26_runtime_panic_is_contained (E : Collaborators) (S : Session)
    (st : Registry) (message : Message)
    (channel trigger argString msg : string) (command : Command)
    (m : Message) (err : option string) :
  match State_Channel S (ChannelID message) with
  | Some c => Some c
  | None => Channel S (ChannelID message)
  end = Some channel ->
  AuthorID message ≠ State_User_ID S ->
  ExtractCommand E (GetGuild E (GuildID message)) (Content message)
    = Some (trigger, argString) ->
  lookup_command st trigger = Some command ->
  outcome (run_command E st argString command message
             (GetGuild E (GuildID message))) = Panic (RuntimeError msg) ->
  ChannelMessageSend S channel "Error!" = (Some m, err) ->
  outcome (commandHandler E S st message) = Ok st
  /\ trace (commandHandler E S st message)
     = (if IsTyping (Info command)
           && bool_decide (ResponseChannelID (GetGuild E (GuildID message)) = "")
        then [EvChannelTyping (ChannelID message)] else [])
       ++ [EvLog "warning" "Recovering from panic: %s" [msg];
           EvLog "warning" "Sending Error report to admins" [];
           EvSendErrorReport (ID (GetGuild E (GuildID message))) channel
             (AuthorID message) "Error!" msg;
           EvChannelMessageSend channel "Error!"]
       ++ match err with
          | Some err => [EvLog "error" "err sending message %s" [err]]
          | None => []
          end
       ++ [EvSleep 5; EvChannelMessageDelete channel (MessageID m)].
Proof.
  intros Hch Hauthor Hex Hcmd Hpanic Hsend.
  destruct (commandHandler_found E S st message channel trigger argString
              command Hch Hauthor Hex Hcmd) as [-> ->].
  cbv zeta. rewrite Hpanic. unfold handleCommandError. cbn.
  rewrite Hsend. by destruct err.
Qed.

Lemma Registry_eq (st st' : Registry) :
  commands st = commands st' ->
  childCommands st = childCommands st' ->
  commandAliases st = commandAliases st' ->
  slashCommands st = slashCommands st' ->
  interactionHandlers st = interactionHandlers st' ->
  commandsGC st = commandsGC st' ->
  st = st'.
Proof. destruct st, st'. simpl. by intros -> -> -> -> -> ->. Qed.

Lemma foldl_add_alias_all_held (T : string) (l : list string)
    (acc : gmap string string * list Event) :
  (forall a, a ∈ l -> is_Some (acc.1 !! a)) ->
  (foldl (add_alias T) acc l).1 = acc.1.
Proof.
  revert acc. induction l as [|a l IH]; intros acc Hl; simpl; [done|].
  assert ((add_alias T acc a).1 = acc.1) as Hstep.
  { unfold add_alias.
    destruct (Hl a ltac:(apply elem_of_cons; by left)) as [v ->]. done. }
  rewrite IH; [done|]. intros b Hb. rewrite Hstep.
  apply Hl, elem_of_cons. by right.
Qed.

(** Over a table that holds every alias of the list as it is written,
    the loop enters nothing and reports each alias, in order. *)
Lemma foldl_add_alias_all_logged (T : string) (l : list string)
    (acc : gmap string string * list Event) :
  (forall a, a ∈ l -> is_Some (acc.1 !! a)) ->
  (foldl (add_alias T) acc l).2
  = acc.2 ++ ((fun a => alias_conflict a T) <$> l).
Proof.
  revert acc. induction l as [|a l IH]; intros acc Hl; simpl.
  - by rewrite app_nil_r.
  - destruct (Hl a ltac:(apply elem_of_cons; by left)) as [v Hv].
    assert (add_alias T acc a = (acc.1, acc.2 ++ [alias_conflict a T]))
      as Hstep by (unfold add_alias; by rewrite Hv).
    rewrite Hstep, IH.
    + simpl. by rewrite <- app_assoc.
    + intros b Hb. simpl. apply Hl, elem_of_cons. by right.
Qed.

(** X27. [AddCommand] writes through its pointer: the caller's struct
    leaves the call with the trigger appended to its alias list.
    Registering the same struct a second time, with names all written in
    lower case, therefore stores a command other than the first
    registration did: its alias list, and the caller's, ends with the
    trigger twice. The alias table is what the first registration left,
    and every name of the grown list is logged as already registered, in
    order, the trigger twice. *)
Theorem X27_registering_twice (info : CommandInfo)
    (f f' : option BotFunction) (st : Registry) :
  keys_lower (commandAliases st) ->
  (forall a, a ∈ Aliases info ++ [Trigger info] -> gostrings.ToLower a = a) ->
  let once := AddCommand info f st in
  let twice := AddCommand (pointee once) f' once.1 in
  Aliases (pointee once) = Aliases info ++ [Trigger info]
  /\ Aliases (pointee twice) = Aliases info ++ [Trigger info; Trigger info]
  /\ commands twice.1
     = <[gostrings.ToLower (Trigger info)
         := {| Info := pointee twice; Function := f' |}]> (commands st)
  /\ commands twice.1 ≠ commands once.1
  /\ commandAliases twice.1 = commandAliases once.1
  /\ twice.2
     = (fun a => alias_conflict a (Trigger info))
         <$> (Aliases info ++ [Trigger info; Trigger info]).
Proof.
  intros Hk Hlow once twice.
  assert (forall a, a ∈ Aliases (pointee once) ++ [Trigger info] ->
            is_Some (commandAliases once.1 !! a)) as Hheld.
  { intros a Ha.
    assert (a ∈ Aliases info ++ [Trigger info]) as Ha'.
    { simpl in Ha. rewrite !elem_of_app in Ha. rewrite elem_of_app.
      destruct Ha as [[?|?]|?]; auto. }
    rewrite <- (Hlow a Ha'). subst once.
    rewrite AddCommand_commandAliases.
    by apply foldl_add_alias_present. }
  split; [reflexivity|].
  split; [simpl; by rewrite <- app_assoc|].
  split; [subst twice once; rewrite !AddCommand_commands; apply insert_insert_eq|].
  split.
  { intros Heq.
    assert (commands twice.1 !! gostrings.ToLower (Trigger info)
            = commands once.1 !! gostrings.ToLower (Trigger info)) as Hat
      by (by rewrite Heq).
    subst twice once. rewrite !AddCommand_commands in Hat.
    rewrite !lookup_insert_eq in Hat.
    injection Hat as Hat. rewrite <- app_assoc in Hat.
    apply app_inv_head in Hat. discriminate Hat. }
  split.
  - subst twice. rewrite AddCommand_commandAliases.
    by apply (foldl_add_alias_all_held (Trigger info) _
                (commandAliases once.1, [])).
  - subst twice. rewrite AddCommand_log.
    rewrite (foldl_add_alias_all_logged (Trigger info) _
               (commandAliases once.1, [])) by exact Hheld.
    simpl. by rewrite <- app_assoc.
Qed.

(** ** The further properties at sample inputs *)

Lemma X2_registrations_resolve_witness :
  lookup_command (register_all two_commands) (gostrings.ToLower "Banish")
  = Some (stored_command
            (command_info "ban" ["B"; "Banish"] None false false "")
            (Some ok_handler)).
Proof.
  apply (X2_registrations_resolve two_commands
           (command_info "ban" ["B"; "Banish"] None false false "",
            Some ok_handler) "Banish").
  - by_computation.
  - by_computation.
  - apply elem_of_cons. by left.
  - apply elem_of_cons. right. apply elem_of_cons. by left.
Defined.

Lemma X3_registration_leaves_other_tokens_witness :
  let st := one_command "ban" ok_handler in
  let kick := command_info "kick" ["K"] None false false "" in
  lookup_command (AddCommand kick (Some ok_handler) st).1 "ban"
  = lookup_command st "ban".
Proof.
  intros st kick.
  apply (X3_registration_leaves_other_tokens kick (Some ok_handler) st "ban");
    by_computation.
Defined.

Lemma X4_alias_conflict_is_logged_and_kept_witness :
  let st := one_command "ban" ok_handler in
  let block := command_info "block" ["ban"] None false false "" in
  commandAliases (AddCommand block (Some ok_handler) st).1 !! "ban"
    = Some "ban"
  /\ alias_conflict "ban" "block" ∈ (AddCommand block (Some ok_handler) st).2
  /\ commands (AddCommand block (Some ok_handler) st).1 !! "block"
     = Some (stored_command block (Some ok_handler)).
Proof.
  intros st block.
  apply (X4_alias_conflict_is_logged_and_kept block (Some ok_handler) st
           "ban" "ban").
  - apply elem_of_cons. by left.
  - reflexivity.
  - intros b Hb Hlow.
    apply elem_of_cons in Hb as [->|Hb]; [done|].
    apply elem_of_cons in Hb as [->|Hb]; [discriminate Hlow|].
    by apply elem_of_nil in Hb.
Defined.

Lemma X8_mapped_tags_witness :
  option_type sample_tags "Int" = discordgo.ApplicationCommandOptionInteger.
Proof.
  apply (X8_mapped_tags sample_tags). by_computation.
Defined.

Lemma X9_visiting_order_permutes_options_witness :
  let children := <["set" := set_child]> {[ "roles" := group_child ]} in
  exists opts1 opts2,
    createChatInputSubCmdStruct sample_tags sample_collaborators map_to_list
      config_info children
      = Ok {| discordgo.Name := "config"; discordgo.Description := "";
              discordgo.Options := Some opts1 |}
    /\ createChatInputSubCmdStruct sample_tags sample_collaborators
         (fun m => reverse (map_to_list m)) config_info children
       = Ok {| discordgo.Name := "config"; discordgo.Description := "";
               discordgo.Options := Some opts2 |}
    /\ opts1 ≡ₚ opts2.
Proof.
  intros children.
  destruct (X9_visiting_order_permutes_options sample_tags
              sample_collaborators map_to_list
              (fun m => reverse (map_to_list m)) config_info children)
    as (opts1 & opts2 & H1 & H2 & Hperm & _).
  - reflexivity.
  - apply reverse_Permutation.
  - intros k v [[_ <-]|[_ [_ <-]%lookup_singleton_Some]]%lookup_insert_Some;
      reflexivity.
  - exists opts1, opts2. split; [exact H1|]. split; [exact H2|exact Hperm].
Defined.

Lemma X11_commandHandler_ignores_witness :
  let own := {| MessageID := "m2"; ChannelID := "c1"; GuildID := "g1";
                AuthorID := "bot"; Content := "!config set foo" |} in
  commandHandler sample_collaborators sample_session telling_registry own
  = mret telling_registry.
Proof.
  intros own.
  apply (X11_commandHandler_ignores sample_collaborators sample_session
           telling_registry own).
  right. left. reflexivity.
Defined.

Lemma X12_command_not_found_witness :
  let run := commandHandler sample_collaborators sample_session
               telling_registry (sample_message "!nope") in
  outcome run = Ok telling_registry
  /\ trace run = [EvLog "error" "Command was not found" []].
Proof.
  intros run.
  apply (X12_command_not_found sample_collaborators sample_session
           telling_registry (sample_message "!nope") "c1" "nope" "");
    try reflexivity.
  by_computation.
Defined.

Lemma X13_typing_indicator_witness :
  let st := (AddCommand typing_info (Some ok_handler) empty_Registry).1 in
  head (trace (commandHandler sample_collaborators sample_session st
                 (sample_message "!slow")))
  = Some (EvChannelTyping "c1").
Proof.
  intros st.
  assert ("u1" ≠ "bot") as Hauthor by by_computation.
  destruct (X13_typing_indicator sample_collaborators sample_session st
              (sample_message "!slow") "c1" "slow" ""
              (stored_command typing_info (Some ok_handler))
              eq_refl Hauthor eq_refl eq_refl)
    as [_ Hhead].
  exact (Hhead eq_refl).
Defined.

Lemma X14_parent_invocation_does_not_count_witness :
  outcome (commandHandler sample_collaborators sample_session
             sample_registry (sample_message "!config set foo"))
  = Ok sample_registry.
Proof.
  destruct (outcome (commandHandler sample_collaborators sample_session
                       sample_registry (sample_message "!config set foo")))
    as [st'|v] eqn:Hout; [|by vm_compute in Hout].
  f_equal.
  apply (X14_parent_invocation_does_not_count sample_collaborators
           sample_session sample_registry st'
           (sample_message "!config set foo") "c1" "config" "set foo"
           (stored_command config_info (Some ok_handler)));
    try reflexivity; [by_computation|exact Hout].
Defined.

Lemma X15_normal_return_is_silent_witness :
  let st := one_command "ping" ok_handler in
  let run := commandHandler sample_collaborators sample_session st
               (sample_message "!ping") in
  outcome run = Ok (set_commandsGC st 1) /\ trace run = [].
Proof.
  intros st run.
  apply (X15_normal_return_is_silent sample_collaborators sample_session st
           (set_commandsGC st 1) (sample_message "!ping") "c1" "ping" ""
           (stored_command (command_info "ping" [] None false false "")
              (Some ok_handler)));
    try reflexivity.
  by_computation.
Defined.

Lemma X16_registered_command_by_interaction_witness :
  handleInteraction sample_collaborators sample_session
    (one_command "ping" telling_handler) ping_interaction
  = handleInteractionError sample_session ping_interaction
      (Some (RuntimeError "ping:"))
  /\ handleInteraction sample_collaborators sample_session
       (one_command "ping" telling_handler) dm_interaction
     = throw nil_dereference.
Proof.
  split.
  - destruct (X16_registered_command_by_interaction sample_collaborators
                sample_session empty_Registry
                (command_info "ping" [] None false false "")
                (Some telling_handler) ping_interaction eq_refl eq_refl)
      as [Hlow _].
    unfold one_command. rewrite (Hlow eq_refl). reflexivity.
  - destruct (X16_registered_command_by_interaction sample_collaborators
                sample_session empty_Registry
                (command_info "ping" [] None false false "")
                (Some telling_handler) dm_interaction eq_refl eq_refl)
      as [Hlow _].
    unfold one_command. rewrite (Hlow eq_refl). reflexivity.
Defined.

Lemma X17_unknown_interaction_name_witness :
  handleInteraction sample_collaborators sample_session
    empty_Registry ping_interaction
  = mret ()
  /\ handleInteraction sample_collaborators sample_session
       empty_Registry dm_interaction
     = throw nil_dereference.
Proof.
  split.
  - apply (X17_unknown_interaction_name sample_collaborators sample_session
             empty_Registry ping_interaction); reflexivity.
  - apply (X17_unknown_interaction_name sample_collaborators sample_session
             empty_Registry dm_interaction); reflexivity.
Defined.

Lemma X22_commands_pushed_witness :
  let st := set_slashCommand empty_Registry "ping"
              {| discordgo.Name := "ping"; discordgo.Description := "";
                 discordgo.Options := None |} in
  length (commands_to_push (sample_api false) map_to_list st
            [platform_command "11" 1 "old"; platform_command "12" 2 "Report"])
  = 2.
Proof.
  intros st.
  destruct (X22_commands_pushed (sample_api false) map_to_list st
              [platform_command "11" 1 "old"; platform_command "12" 2 "Report"]
              (platform_command "12" 2 "Report")) as [_ Hlen].
  - intros p l y. simpl. rewrite list_elem_of_In, filter_In.
    by rewrite <- list_elem_of_In.
  - reflexivity.
  - rewrite Hlen. reflexivity.
Defined.

Lemma X23_one_global_overwrite_witness :
  length (overwrites (RegisterSlashCommands (sample_api false) "bot"
                        map_to_list empty_Registry))
  = 1.
Proof.
  rewrite (X23_one_global_overwrite (sample_api false) "bot" map_to_list
             empty_Registry eq_refl).
  reflexivity.
Defined.

Lemma X24_guild_overwrites_stop_at_failure_witness :
  (overwrites (RegisterSlashCommands (sample_api true) "bot" map_to_list
                 empty_Registry)).*1
  = ["1"; "2"].
Proof.
  destruct (X24_guild_overwrites_stop_at_failure (sample_api true) "bot"
              map_to_list empty_Registry eq_refl) as [Hstop _].
  rewrite (Hstop [("first", "1")] ("second", "2") [("third", "3")]
             "HTTP 403 Forbidden" eq_refl).
  - reflexivity.
  - intros p Hp. apply list_elem_of_singleton in Hp as ->. reflexivity.
  - reflexivity.
Defined.

Lemma X26_runtime_panic_is_contained_witness :
  let st := one_command "boom" (panicking_handler (RuntimeError "boom")) in
  let run := commandHandler sample_collaborators sample_session st
               (sample_message "!boom") in
  outcome run = Ok st
  /\ trace run
     = [EvLog "warning" "Recovering from panic: %s" ["boom"];
        EvLog "warning" "Sending Error report to admins" [];
        EvSendErrorReport "g1" "c1" "u1" "Error!" "boom";
        EvChannelMessageSend "c1" "Error!";
        EvSleep 5; EvChannelMessageDelete "c1" "e1"].
Proof.
  intros st run.
  assert ("u1" ≠ "bot") as Hauthor by by_computation.
  exact (X26_runtime_panic_is_contained sample_collaborators sample_session
           st (sample_message "!boom") "c1" "boom" "" "boom"
           (stored_command (command_info "boom" [] None false false "")
              (Some (panicking_handler (RuntimeError "boom"))))
           _ None eq_refl Hauthor eq_refl eq_refl eq_refl eq_refl).
Defined.

Lemma X27_registering_twice_witness :
  let ban := command_info "ban" ["b"] None false false "" in
  let once := AddCommand ban (Some ok_handler) empty_Registry in
  let twice := AddCommand (pointee once) (Some ok_handler) once.1 in
  Aliases (pointee twice) = ["b"; "ban"; "ban"]
  /\ commandAliases twice.1 = commandAliases once.1
  /\ twice.2 = [alias_conflict "b" "ban"; alias_conflict "ban" "ban";
               alias_conflict "ban" "ban"].
Proof.
  intros ban once twice.
  destruct (X27_registering_twice ban (Some ok_handler) (Some ok_handler)
              empty_Registry keys_lower_empty) as (_ & Hgrown & _ & _ & Halias & Hlog).
  - intros a Ha.
    apply elem_of_cons in Ha as [->|Ha]; [done|].
    apply elem_of_cons in Ha as [->|Ha]; [done|].
    by apply elem_of_nil in Ha.
  - split; [exact Hgrown|]. split; [exact Halias|exact Hlog].
Defined.
